(** * slog: the human-readable entry formatter and the synchronized writer

    A shallow embedding of [internal/humanfmt] (function [Entry] and
    [levelColor]) and of [internal/syncwriter] (type [Writer] with [Write],
    [Sync] and the helper [errorsIsAny]), together with the properties the
    specification states about them. *)

From Stdlib Require Import ZArith Ascii DecimalString.
From stdpp Require Import base option list strings gmap.

(** Decimal rendering of an integer, as [%v] prints a Go [int]. *)
Definition itoa (z : Z) : string := NilZero.string_of_int (Z.to_int z).

(* ===================================================================== *)
(** * Package syncwriter *)
(* ===================================================================== *)

Module Syncwriter.

Local Open Scope Z_scope.

(** ** Go errors

    An [error] is an interface value: nil ([None]) or a non-nil error.  The
    non-nil errors that matter to [errors.Is] are told apart by shape:
    a bare [syscall.Errno], an error that wraps another one (it has an
    [Unwrap] method, like [*os.PathError], whose text is
    [prefix ++ ": " ++ inner]), and an error that is neither (made by
    [errors.New], compared by identity).  An error with an [Is] method of
    its own, or one that wraps several errors, has no shape here. *)
Inductive goerror : Type :=
| Errno (code : Z)
| Wrap (prefix : string) (inner : goerror)
| Opaque (id : nat) (msg : string).

Definition error : Type := option goerror.

(** [syscall] error numbers (linux). *)
Definition EBADF : Z := 9.
Definition EINVAL : Z := 22.
Definition ENOTTY : Z := 25.
Definition EIO : Z := 5.
Definition ENOSPC : Z := 28.

(** [syscall.Errno.Error]: the message table, cut down to the numbers
    named above; any other number prints as [errno N]. *)
Definition errno_text (code : Z) : string :=
  if code =? EBADF then "bad file descriptor"
  else if code =? EINVAL then "invalid argument"
  else if code =? ENOTTY then "inappropriate ioctl for device"
  else if code =? EIO then "input/output error"
  else if code =? ENOSPC then "no space left on device"
  else "errno " +:+ itoa code.

(** The [Error] method. *)
Fixpoint Error (e : goerror) : string :=
  match e with
  | Errno code => errno_text code
  | Wrap prefix inner => prefix +:+ ": " +:+ Error inner
  | Opaque _ msg => msg
  end.

(** [%+v] applied to an [error] value: a nil interface prints as [<nil>]. *)
Definition fmt_error (err : error) : string :=
  match err with
  | None => "<nil>"
  | Some e => Error e
  end.

(** [errors.Is(err, target)] of the standard library, for a target that is a
    [syscall.Errno] (the only targets the package passes): walk the [Unwrap]
    chain of [err] and compare each link with the target.  A nil [err] has
    no link, so the answer is false. *)
Fixpoint chain_Is (e : goerror) (target : Z) : bool :=
  match e with
  | Errno code => code =? target
  | Wrap _ inner => chain_Is inner target
  | Opaque _ _ => false
  end.

Definition errors_Is (err : error) (target : Z) : bool :=
  match err with
  | None => false
  | Some e => chain_Is e target
  end.

(** [errorsIsAny]: the loop over [errs], returning at the first match. *)
Fixpoint errorsIsAny (err : error) (errs : list Z) : bool :=
  match errs with
  | [] => false
  | e :: errs' => if errors_Is err e then true else errorsIsAny err errs'
  end.

(** The failure [e] carries the error number [code]: it is that
    [syscall.Errno], or it wraps a failure that carries it. *)
Inductive carries (code : Z) : goerror → Prop :=
| carries_here : carries code (Errno code)
| carries_inner prefix e : carries code e → carries code (Wrap prefix e).

(** ** The wrapped sink

    [w.w] is an [io.Writer]; what [Sync] asks of it is its dynamic type:
    [*os.File] (which has a [Sync] method), some other type with a [Sync]
    method, or a type without one. *)
Inductive dyntype : Type := OsFile | OtherSyncer | WriterOnly.

Record Sink : Type := mkSink {
  sink_type : dyntype;
  (** what the sink's own [Sync] method returns when called *)
  sink_sync_result : error;
  (** how many times the sink's [Sync] method has been called *)
  sink_sync_calls : nat;
  (** the bytes the sink has received *)
  sink_data : list Byte.byte
}.

(** The type assertions [w.w.(syncer)] and [w.w.( *os.File)]. *)
Definition is_syncer (s : Sink) : bool :=
  match sink_type s with
  | OsFile | OtherSyncer => true
  | WriterOnly => false
  end.

Definition is_os_File (s : Sink) : bool :=
  match sink_type s with
  | OsFile => true
  | _ => false
  end.

(** Calling the sink's [Sync] method. *)
Definition sink_Sync (s : Sink) : error * Sink :=
  (sink_sync_result s,
   mkSink (sink_type s) (sink_sync_result s) (S (sink_sync_calls s)) (sink_data s)).

(** One byte reaching the sink, and the sink's [Write] method: the bytes of
    [p] reach the sink one after the other, and the call reports all of
    them written. *)
Definition sink_put (b : Byte.byte) (s : Sink) : Sink :=
  mkSink (sink_type s) (sink_sync_result s) (sink_sync_calls s) (sink_data s ++ [b]).

Definition sink_Write (p : list Byte.byte) (s : Sink) : (Z * error) * Sink :=
  ((Z.of_nat (length p), None), foldl (λ s b, sink_put b s) s p).

(** ** Writer and the process around it

    [mu] is the mutex ([true] when held), [w] the wrapped sink.  [stderr]
    collects the lines the builtin [println] writes: the diagnostic side
    channel, which does not go through [w]. *)
Record Writer : Type := mkWriter {
  mu : bool;
  w : Sink
}.

Record World : Type := mkWorld {
  writer : Writer;
  stderr : list string
}.

Definition New (s : Sink) : Writer := mkWriter false s.

Definition set_mu (b : bool) (st : World) : World :=
  mkWorld (mkWriter b (w (writer st))) (stderr st).

Definition set_sink (s : Sink) (st : World) : World :=
  mkWorld (mkWriter (mu (writer st)) s) (stderr st).

Definition println (line : string) (st : World) : World :=
  mkWorld (writer st) (stderr st ++ [line]).

(** The body of [Write] between [Lock] and the deferred [Unlock]. *)
Definition Write_locked (p : list Byte.byte) (st : World) : (Z * error) * World :=
  let '(r, s') := sink_Write p (w (writer st)) in
  (r, set_sink s' st).

(** [Write].  A call on a held mutex blocks; in a run of one thread nobody
    releases it, so the call has no result ([None]). *)
Definition Write (p : list Byte.byte) (st : World) : option ((Z * error) * World) :=
  if mu (writer st) then None
  else
    let '(r, st) := Write_locked p (set_mu true st) in
    Some (r, set_mu false st).

(** The body of [Sync] between [Lock] and the deferred [Unlock]. *)
Definition Sync_locked (sinkName : string) (st : World) : World :=
  if negb (is_syncer (w (writer st))) then
    st
  else
    let '(err, s') := sink_Sync (w (writer st)) in
    let st := set_sink s' st in
    if is_os_File (w (writer st)) && errorsIsAny err [EINVAL; ENOTTY; EBADF] then
      st
    else
      println ("failed to sync " +:+ sinkName +:+ ": " +:+ fmt_error err) st.

(** [Sync]: [Lock], the body, and the deferred [Unlock] at whichever
    [return] the body takes. *)
Definition Sync (sinkName : string) (st : World) : option World :=
  if mu (writer st) then None
  else Some (set_mu false (Sync_locked sinkName (set_mu true st))).

(** ** Several threads on one Writer

    Each thread has a list of calls to make.  A call runs in steps that
    other threads' steps can come between: [Lock] (enabled when the mutex
    is free), then for [Write] the bytes of [p] reaching the sink one at a
    time, for [Sync] its body, then [Unlock]. *)
Inductive call : Type :=
| CallWrite (p : list Byte.byte)
| CallSync (sinkName : string).

Inductive activity : Type :=
| Idle
| InWrite (p : list Byte.byte) (n : nat)      (* [n] bytes of [p] are out *)
| InSync (sinkName : string) (done : bool).

Record thread : Type := mkThread {
  act : activity;
  todo : list call
}.

Record system : Type := mkSystem {
  world : World;
  threads : list thread
}.

(** One step of a thread on the shared world; [None] when the thread
    cannot move (it waits for the mutex, or it has nothing left to do). *)
Definition thread_step (t : thread) (st : World) : option (thread * World) :=
  match act t with
  | Idle =>
    match todo t with
    | [] => None
    | c :: cs =>
      if mu (writer st) then None
      else
        Some (mkThread (match c with
                        | CallWrite p => InWrite p 0
                        | CallSync name => InSync name false
                        end) cs,
              set_mu true st)
    end
  | InWrite p n =>
    match p !! n with
    | Some b => Some (mkThread (InWrite p (S n)) (todo t),
                      set_sink (sink_put b (w (writer st))) st)
    | None => Some (mkThread Idle (todo t), set_mu false st)
    end
  | InSync name false =>
    Some (mkThread (InSync name true) (todo t), Sync_locked name st)
  | InSync name true =>
    Some (mkThread Idle (todo t), set_mu false st)
  end.

(** The thread with index [i] takes a step; nothing happens when it
    cannot. *)
Definition system_step (i : nat) (sys : system) : system :=
  match threads sys !! i with
  | None => sys
  | Some t =>
    match thread_step t (world sys) with
    | None => sys
    | Some (t', st') => mkSystem st' (<[i := t']> (threads sys))
    end
  end.

(** A schedule is the list of the threads that step, in order. *)
Definition run (schedule : list nat) (sys : system) : system :=
  foldl (λ sys i, system_step i sys) sys schedule.

Definition start (s : Sink) (programs : list (list call)) : system :=
  mkSystem (mkWorld (New s) []) (mkThread Idle <$> programs).

Definition write_payloads (cs : list call) : list (list Byte.byte) :=
  omap (λ c, match c with CallWrite p => Some p | CallSync _ => None end) cs.

Definition finished (sys : system) : Prop :=
  Forall (λ t, act t = Idle ∧ todo t = []) (threads sys).

Definition busy (t : thread) : bool :=
  match act t with
  | Idle => false
  | _ => true
  end.

Definition writing (t : thread) : bool :=
  match act t with
  | InWrite _ _ => true
  | _ => false
  end.

Definition syncing (t : thread) : bool :=
  match act t with
  | InSync _ _ => true
  | _ => false
  end.

(** The payloads a thread has still to get out in full: the one it is
    writing, and those of the calls it has not started. *)
Definition thread_payloads (t : thread) : list (list Byte.byte) :=
  match act t with
  | InWrite p _ => [p]
  | _ => []
  end ++ write_payloads (todo t).

Definition pending (ts : list thread) : list (list Byte.byte) :=
  concat (thread_payloads <$> ts).

(** What holds of the system at every moment of a run that started with
    the payloads [all] to write and [d0] in the sink: the sink holds [d0],
    then the payloads [ps] of the calls that are over, whole and one after
    the other, then the part [cur] that is out of the payload being
    written; the mutex is held exactly when one thread is between its
    [Lock] and its [Unlock], and no other thread is. *)
Definition serialized (d0 : list Byte.byte) (all : list (list Byte.byte))
    (sys : system) (ps : list (list Byte.byte)) (cur : list Byte.byte) : Prop :=
  sink_data (w (writer (world sys))) = d0 ++ concat ps ++ cur
  ∧ ps ++ pending (threads sys) ≡ₚ all
  ∧ if mu (writer (world sys)) then
      ∃ i t, threads sys !! i = Some t ∧ busy t = true
             ∧ (∀ j t', j ≠ i → threads sys !! j = Some t' → busy t' = false)
             ∧ cur = match act t with
                     | InWrite p n => take n p
                     | _ => []
                     end
    else
      cur = [] ∧ ∀ j t', threads sys !! j = Some t' → busy t' = false.

(** Two threads, one writing [ab], the other [cd] and then calling
    [Sync]. *)
Definition ex_ab : list Byte.byte := [Byte.x61; Byte.x62].
Definition ex_cd : list Byte.byte := [Byte.x63; Byte.x64].

Definition ex_programs : list (list call) :=
  [[CallWrite ex_ab]; [CallWrite ex_cd; CallSync "buffer"]].

Definition ex_buffer : Sink := mkSink WriterOnly None 0 [].

(** ** One goroutine making calls in order

    Each call starts when the one before has returned; a call that blocks
    leaves the rest undone ([None]). *)
Fixpoint calls_in_order (cs : list call) (st : World) : option World :=
  match cs with
  | [] => Some st
  | CallWrite p :: cs' =>
    match Write p st with
    | Some (_, st') => calls_in_order cs' st'
    | None => None
    end
  | CallSync sinkName :: cs' =>
    match Sync sinkName st with
    | Some st' => calls_in_order cs' st'
    | None => None
    end
  end.


(** The thread with index [i] can take a step. *)
Definition can_step (i : nat) (sys : system) : Prop :=
  ∃ t, threads sys !! i = Some t ∧ is_Some (thread_step t (world sys)).

(** The steps a call takes: [Lock], its body, [Unlock]. *)
Definition call_steps (c : call) : nat :=
  match c with
  | CallWrite p => length p + 2
  | CallSync _ => 3
  end.

(** The steps a thread has left before all its calls are over. *)
Definition thread_work (t : thread) : nat :=
  match act t with
  | Idle => 0
  | InWrite p n => (length p - n) + 1
  | InSync _ false => 2
  | InSync _ true => 1
  end + sum_list (call_steps <$> todo t).

Definition total_work (sys : system) : nat :=
  sum_list (thread_work <$> threads sys).

Definition ex_world : World := mkWorld (New ex_buffer) [].


End Syncwriter.

(* ===================================================================== *)
(** * The packages [Entry] imports *)
(* ===================================================================== *)

(** The outcome of a Go call that can panic. *)
Inductive fault : Type :=
| unexpected_level (level : Z)          (* panic("humanfmt: unexpected level: " + ...) *)
| index_out_of_range (i n : nat).       (* runtime error: index out of range [i] with length n *)

Inductive outcome (A : Type) : Type :=
| Returns (a : A)
| Panics (f : fault).
Arguments Returns {A} a.
Arguments Panics {A} f.

(** [github.com/fatih/color]: the attributes [humanfmt] uses. *)
Module color.
Inductive Attribute : Type :=
| FgRed | FgGreen | FgYellow | FgBlue | FgMagenta | FgHiRed.
End color.

(** [go.opencensus.io/trace]: [SpanContext] is a struct of four comparable
  fields; [SpanContext{}] is the one with all four zero. *)
Module trace.
Record SpanContext : Type := mkSpanContext {
  TraceID : Z;                      (* [16]byte *)
  SpanID : Z;                       (* [8]byte *)
  TraceOptions : Z;                 (* uint32 *)
  Tracestate : option nat           (* *tracestate.Tracestate, nil = None *)
}.

Definition zero : SpanContext := mkSpanContext 0%Z 0%Z 0%Z None.

Global Instance SpanContext_eq_dec : EqDecision SpanContext.
Proof. solve_decision. Defined.
End trace.

(** Package [time] of the standard library: a [Time] seen through its
    calendar fields (what [Date], [Clock] and [Nanosecond] return), and
    [Format] for layouts built from the elements [Jan], [02], [_2], [15],
    [04], [05] and [.000]; any other character of the layout is copied. *)
Module time.

Local Open Scope Z_scope.

Record Time : Type := mkTime {
  Month : Z;                         (* 1 .. 12 *)
  Day : Z;                           (* 1 .. 31 *)
  Hour : Z;                          (* 0 .. 23 *)
  Minute : Z;                        (* 0 .. 59 *)
  Second : Z;                        (* 0 .. 59 *)
  Nanosecond : Z                     (* 0 .. 999999999 *)
}.

Definition digit (d : Z) : ascii := ascii_of_nat (48 + Z.to_nat d).

(** The [width] low decimal digits of [x], most significant first, in
    front of [acc]. *)
Fixpoint zero_padded (width : nat) (x : Z) (acc : string) : string :=
  match width with
  | O => acc
  | S k => zero_padded k (x / 10) (String (digit (x mod 10)) acc)
  end.

(** [appendInt]: [x] in decimal, padded with zeros on the left to [width]
    digits. *)
Definition appendInt (x : Z) (width : nat) : string :=
  let u := Z.abs x in
  (if x <? 0 then "-" else "") +:+
  (if (u <? 10 ^ Z.of_nat width) && (0 <? width)%nat
   then zero_padded width u "" else itoa u).

(** [Month.String()[:3]]. *)
Definition month_abbrev (m : Z) : string :=
  match m with
  | 1 => "Jan" | 2 => "Feb" | 3 => "Mar" | 4 => "Apr"
  | 5 => "May" | 6 => "Jun" | 7 => "Jul" | 8 => "Aug"
  | 9 => "Sep" | 10 => "Oct" | 11 => "Nov" | 12 => "Dec"
  | _ => "%!M"
  end.

(** The day padded with a space ([_2]). *)
Definition space_padded_day (d : Z) : string :=
  if d <? 10 then " " +:+ appendInt d 0 else appendInt d 0.

(** [.000]: the separator and the first three of the nine digits of the
    nanoseconds. *)
Definition millis (ns : Z) : string :=
  "." +:+ String.substring 0 3 (appendInt ns 9).

Definition is_digit (c : ascii) : bool :=
  (48 <=? nat_of_ascii c)%nat && (nat_of_ascii c <=? 57)%nat.

Definition starts_with_digit (l : list ascii) : bool :=
  match l with
  | c :: _ => is_digit c
  | [] => false
  end.

Fixpoint format_layout (layout : list ascii) (t : Time) : string :=
  match layout with
  | [] => EmptyString
  | "J" :: "a" :: "n" :: rest => month_abbrev (Month t) +:+ format_layout rest t
  | "0" :: "2" :: rest => appendInt (Day t) 2 +:+ format_layout rest t
  | "_" :: "2" :: rest => space_padded_day (Day t) +:+ format_layout rest t
  | "1" :: "5" :: rest => appendInt (Hour t) 2 +:+ format_layout rest t
  | "0" :: "4" :: rest => appendInt (Minute t) 2 +:+ format_layout rest t
  | "0" :: "5" :: rest => appendInt (Second t) 2 +:+ format_layout rest t
  | "." :: (("0" :: "0" :: "0" :: rest) as rest0) =>
      if starts_with_digit rest
      then String "." (format_layout rest0 t)
      else millis (Nanosecond t) +:+ format_layout rest t
  | c :: rest => String c (format_layout rest t)
  end%char.

Definition Format (t : Time) (layout : string) : string :=
  format_layout (String.list_ascii_of_string layout) t.

(** [time.StampMilli]. *)
Definition StampMilli : string := "Jan _2 15:04:05.000".

End time.

(** Package [slog]. *)
Module slog.

(** Modelled from the spec: [slog.Level] and its six constants (package
    slog is not under src).  The levels are a fixed, totally ordered set;
    the Go type is an integer type, so other values exist. *)
Definition Level : Type := Z.
Definition LevelDebug : Level := 0%Z.
Definition LevelInfo : Level := 1%Z.
Definition LevelWarn : Level := 2%Z.
Definition LevelError : Level := 3%Z.
Definition LevelCritical : Level := 4%Z.
Definition LevelFatal : Level := 5%Z.

(** The value of a field is an [interface{}]; the shapes below are the
    ones the development builds. *)
Inductive Any : Type :=
| ANil
| ATraceID (id : Z)
| ASpanID (id : Z)
| AString (s : string)
| AInt (n : Z).

Record Field : Type := F {
  Name : string;
  Value : Any
}.

Definition zeroField : Field := F "" ANil.

(** ** Slices of fields

    A slice is a window on a backing array: the array, where the window
    starts, its length and its capacity.  The heap maps each allocated
    array to its cells. *)
Record slice : Type := mkSlice {
  array : nat;
  offset : nat;
  len : nat;
  cap : nat
}.

Definition nilSlice : slice := mkSlice 0 0 0 0.

Definition elems (h : gmap nat (list Field)) (s : slice) : list Field :=
  take (len s) (drop (offset s) (default [] (h !! array s))).

(** Overwrite the cells of [a] from index [i] on with [xs]. *)
Definition write_at (i : nat) (xs : list Field) (a : list Field) : list Field :=
  take i a ++ xs ++ drop (i + length xs) a.

(** A new array holding [xs] followed by [spare] zero cells. *)
Definition alloc (xs : list Field) (spare : nat) (h : gmap nat (list Field))
  : slice * gmap nat (list Field) :=
  let l := fresh (dom h) in
  (mkSlice l 0 (length xs) (length xs + spare),
   <[l := xs ++ replicate spare zeroField]> h).

(** The builtin [append(s, xs...)]: in place when the capacity of [s]
    allows, into a new array otherwise.  [growcap old needed] is the
    capacity the runtime picks for the new array; it is at least
    [needed]. *)
Definition append (growcap : nat → nat → nat) (s : slice) (xs : list Field)
    (h : gmap nat (list Field)) : slice * gmap nat (list Field) :=
  let needed := (len s + length xs)%nat in
  if (needed <=? cap s)%nat then
    (mkSlice (array s) (offset s) needed (cap s),
     alter (write_at (offset s + len s) xs) (array s) h)
  else
    alloc (elems h s ++ xs) (Nat.max needed (growcap (cap s) needed) - needed) h.

Record Entry : Type := mkEntry {
  Time : time.Time;
  Level_ : Level;                    (* the field Level *)
  Message : string;
  Component : string;
  File : string;
  Line : Z;
  SpanContext : trace.SpanContext;
  Fields : slice
}.

End slog.

(** Package [slogval]: the value tree the encoder produces.  A [Map] is a
    slice of fields (a name and a value), in order. *)
Module slogval.

#[local] Unset Elimination Schemes.

Inductive Value : Type :=
| Scalar (text : string)
| List (items : list Value)
| Map (fields : list (string * Value)).

Definition Field : Type := (string * Value)%type.

End slogval.

(* ===================================================================== *)
(** * Package humanfmt *)
(* ===================================================================== *)

Module Humanfmt.

Import color slog.

(** What [Entry] calls outside the file: methods and functions of other
    packages, the global [slogval.JSONTest], the helpers [quoteKey],
    [quote] and [fmtVal] that the package keeps in another file, and two
    choices of the runtime.  Each function is taken to return (none of
    them panics) and to leave the arrays of fields as they are; the
    encoder reads the fields it is handed. *)
Record Deps : Type := mkDeps {
  Level_String : Level → string;               (* slog.Level.String *)
  Sprint : Attribute → string → string;        (* color.New(a).Sprint(s) *)
  Base : string → string;                      (* filepath.Base *)
  quoteKey : string → string;
  quote : string → string;
  fmtVal : list slogval.Field → string;
  Encode : list Field → slogval.Value;         (* slogval.Encode *)
  JSONTest : bool;                             (* slogval.JSONTest *)
  Marshal : list slogval.Field → option string; (* json.Marshal, None when err != nil *)
  Map_spare : nat;                             (* spare capacity of what slog.Map returns *)
  growcap : nat → nat → nat                    (* capacity picked when append reallocates *)
}.

(** Same as [time.StampMilli] but the days in the month padded by zeros. *)
Definition timestampMilli : string := "Jan 02 15:04:05.000".

Definition levelColor (level : Level) : outcome Attribute :=
  if decide (level = LevelDebug ∨ level = LevelInfo) then Returns FgBlue
  else if decide (level = LevelWarn) then Returns FgYellow
  else if decide (level = LevelError) then Returns FgRed
  else if decide (level = LevelCritical ∨ level = LevelFatal) then Returns FgHiRed
  else Panics (unexpected_level level).

(** The line feed. *)
Definition nl : string := String "010" "".

(** [slog.Map(fs...)]: a slice of fields that no one else holds. *)
Definition slog_Map (d : Deps) (fs : list Field) (h : gmap nat (list Field))
  : slice * gmap nat (list Field) :=
  alloc fs (Map_spare d) h.

(** [Entry] returns a human readable format for [ent].  The heap [h] holds
    the arrays behind the slices of fields; the call returns the heap it
    leaves. *)
Definition Entry (d : Deps) (ent : slog.Entry) (enableColor : bool)
    (h : gmap nat (list Field)) : outcome string * gmap nat (list Field) :=
  let ents := "" in
  let level := Level_String d (Level_ ent) in
  match (if enableColor
         then match levelColor (Level_ ent) with
              | Returns c => Returns (Sprint d c level)
              | Panics f => Panics f
              end
         else Returns level) with
  | Panics f => (Panics f, h)
  | Returns level =>
    let ents := ents +:+ ("[" +:+ level +:+ "] ") in

    let loc := Base d (File ent) +:+ ":" +:+ itoa (Line ent) in
    let loc := if enableColor then Sprint d FgGreen loc else loc in
    let ents := ents +:+ ("{" +:+ loc +:+ "} ") in

    let ents :=
      if decide (Component ent ≠ "") then
        let component := quoteKey d (Component ent) in
        let component :=
          if enableColor then Sprint d FgMagenta component else component in
        ents +:+ ("(" +:+ component +:+ ") ")
      else ents in

    let ts := time.Format (Time ent) timestampMilli in
    let ents := ents +:+ ts in

    let msg := quote d (Message ent) in
    let ents := ents +:+ (": " +:+ msg) in

    let '(fields, h) :=
      if decide (SpanContext ent ≠ trace.zero) then
        let '(m, h) :=
          slog_Map d [F "trace" (ATraceID (trace.TraceID (SpanContext ent)));
                      F "span" (ASpanID (trace.SpanID (SpanContext ent)))] h in
        append (growcap d) m (elems h (Fields ent)) h
      else (Fields ent, h) in
    match Encode d (elems h fields) with
    | slogval.Map m =>
      if JSONTest d then
        match m !! 2%nat with
        | None => (Panics (index_out_of_range 2 (length m)), h)
        | Some errVal =>
          let m := take 2 m ++ drop (2 + 1) m in
          let ents :=
            match Marshal d m with
            | Some fields => ents +:+ nl +:+ fields
            | None => ents
            end in
          (Returns (ents +:+ nl +:+ fmtVal d [("error", errVal.2)]), h)
        end
      else
        (Returns (ents +:+ nl +:+ fmtVal d m), h)
    | _ => (Returns ents, h)
    end
  end.

(** ** The helpers kept in another file of the package *)

Definition dquote : ascii := "034"%char.
Definition backslash : ascii := "092"%char.

Definition is_control (c : ascii) : bool :=
  (nat_of_ascii c <? 32)%nat || (nat_of_ascii c =? 127)%nat.

Definition unsafe_char (c : ascii) : bool :=
  Ascii.is_space c || is_control c || bool_decide (c = dquote).

Fixpoint has_unsafe_char (s : string) : bool :=
  match s with
  | EmptyString => false
  | String c s' => unsafe_char c || has_unsafe_char s'
  end.

Fixpoint escape (s : string) : string :=
  match s with
  | EmptyString => EmptyString
  | String c s' =>
    if bool_decide (c = dquote ∨ c = backslash)
    then String backslash (String c (escape s'))
    else String c (escape s')
  end.

Definition in_quotes (s : string) : string :=
  String dquote (escape s +:+ String dquote EmptyString).

(** Modelled from the spec: [quoteKey], which [Entry] applies to the
    component, is in a file of the package that is not under src.  The key
    quoting rule: "quote the string only if it contains whitespace or
    control/quote characters, else leave bare"; a quoted string has its
    "internal quotes escaped". *)
Definition spec_quoteKey (s : string) : string :=
  if has_unsafe_char s then in_quotes s else s.

(** Modelled from the spec: [quote], which [Entry] applies to the message,
    is in a file of the package that is not under src.  The message is
    "passed through the same quoting rule as component (quote only if it
    contains characters unsafe for unquoted display)".  The source calls
    [quote] and [quoteKey] as two helpers; how their bodies compare cannot
    be read from it, and nothing below is proved of that: the definition
    serves to run [Entry] on examples. *)
Definition spec_quote (s : string) : string :=
  if has_unsafe_char s then in_quotes s else s.

(** Modelled from the spec: [fmtVal] is in a file of the package that is
    not under src.  "Scalar values print as literal text; nested
    maps/lists are rendered one key per line at increasing indentation; no
    trailing newline is added after the last field line." *)
Fixpoint fmt_value (indent : string) (v : slogval.Value) : string :=
  match v with
  | slogval.Scalar text => text
  | slogval.List items =>
    (fix go (l : list slogval.Value) : string :=
       match l with
       | [] => ""
       | x :: l' => nl +:+ indent +:+ "- " +:+ fmt_value (indent +:+ "  ") x +:+ go l'
       end) items
  | slogval.Map fields =>
    (fix go (l : list (string * slogval.Value)) : string :=
       match l with
       | [] => ""
       | (k, x) :: l' =>
         nl +:+ indent +:+ spec_quoteKey k +:+ ": "
            +:+ fmt_value (indent +:+ "  ") x +:+ go l'
       end) fields
  end.

Fixpoint spec_fmtVal (m : list slogval.Field) : string :=
  match m with
  | [] => ""
  | [(k, x)] => spec_quoteKey k +:+ ": " +:+ fmt_value "  " x
  | (k, x) :: m' => spec_quoteKey k +:+ ": " +:+ fmt_value "  " x +:+ nl +:+ spec_fmtVal m'
  end.

(** ** One concrete choice for what lies outside the package

    Used to run [Entry] on examples. *)

(** Modelled from the spec: [slog.Level.String] (package slog is not under
    src) gives the canonical short name of the six levels; the spec names
    no text for another value, which prints here with its number. *)
Definition ex_Level_String (level : Level) : string :=
  if decide (level = LevelDebug) then "DEBUG"
  else if decide (level = LevelInfo) then "INFO"
  else if decide (level = LevelWarn) then "WARN"
  else if decide (level = LevelError) then "ERROR"
  else if decide (level = LevelCritical) then "CRITICAL"
  else if decide (level = LevelFatal) then "FATAL"
  else "slog.Level(" +:+ itoa level +:+ ")".

(** The escape sequences of [fatih/color]. *)
Definition ex_Sprint (a : Attribute) (s : string) : string :=
  let esc := String "027"%char "[" in
  esc +:+ match a with
          | FgRed => "31" | FgGreen => "32" | FgYellow => "33"
          | FgBlue => "34" | FgMagenta => "35" | FgHiRed => "91"
          end +:+ "m" +:+ s +:+ esc +:+ "0m".

(** The text after the last slash. *)
Fixpoint ex_Base_from (s acc : string) : string :=
  match s with
  | EmptyString => acc
  | String c s' =>
    if bool_decide (c = "/"%char) then ex_Base_from s' "" 
    else ex_Base_from s' (acc +:+ String c "")
  end.

Definition ex_Base (s : string) : string := ex_Base_from s "".

Definition ex_Any_text (v : Any) : string :=
  match v with
  | ANil => "<nil>"
  | ATraceID id => itoa id
  | ASpanID id => itoa id
  | AString s => s
  | AInt n => itoa n
  end.

(** Each field becomes a scalar under its name. *)
Definition ex_Encode (fs : list Field) : slogval.Value :=
  slogval.Map (map (λ f, (Name f, slogval.Scalar (ex_Any_text (Value f)))) fs).

Fixpoint ex_json_fields (m : list slogval.Field) : string :=
  match m with
  | [] => ""
  | (k, x) :: m' =>
    in_quotes k +:+ ":" +:+ in_quotes (fmt_value "" x)
      +:+ (match m' with [] => "" | _ => "," end) +:+ ex_json_fields m'
  end.

Definition ex_Marshal (m : list slogval.Field) : option string :=
  Some ("{" +:+ ex_json_fields m +:+ "}").

Definition ex_Deps (jsonTest : bool) : Deps :=
  mkDeps ex_Level_String ex_Sprint ex_Base spec_quoteKey spec_quote spec_fmtVal
         ex_Encode jsonTest ex_Marshal 0 (λ old needed, 2 * old)%nat.

(** An entry and the heap holding its fields. *)
Definition ex_time : time.Time := time.mkTime 1 2 15 4 5 123456789.

Definition ex_heap : gmap nat (list Field) :=
  {[ 7%nat := [F "retries" (AInt 3)] ]}.

Definition ex_entry_of (level : Level) (component : string)
    (sc : trace.SpanContext) : slog.Entry :=
  mkEntry ex_time level "boom" component "/srv/app/server.go" 42 sc
          (mkSlice 7 0 1 1).

Definition ex_entry : slog.Entry := ex_entry_of LevelError "" trace.zero.

Definition ex_span : trace.SpanContext := trace.mkSpanContext 171 205 1 None.

Definition ex_heap_trace : gmap nat (list Field) :=
  {[ 7%nat := [F "trace" (AString "caller")] ]}.

Definition ex_entry_api : slog.Entry := ex_entry_of LevelInfo "api" trace.zero.

Definition ex_entry_traced : slog.Entry := ex_entry_of LevelInfo "api" ex_span.

(** ** The layout of §4.1, token by token

    What the specification lists as the steps of the formatter, each as a
    function of the entry; [Entry_layout] below shows that [Entry] is their
    concatenation. *)

(** Step 1: the level tag. *)
Definition level_tag (d : Deps) (ent : slog.Entry) (enableColor : bool)
  : outcome string :=
  if enableColor then
    match levelColor (Level_ ent) with
    | Returns c => Returns ("[" +:+ Sprint d c (Level_String d (Level_ ent)) +:+ "] ")
    | Panics f => Panics f
    end
  else Returns ("[" +:+ Level_String d (Level_ ent) +:+ "] ").

(** Step 2: the location tag. *)
Definition location_tag (d : Deps) (ent : slog.Entry) (enableColor : bool) : string :=
  let loc := Base d (File ent) +:+ ":" +:+ itoa (Line ent) in
  "{" +:+ (if enableColor then Sprint d FgGreen loc else loc) +:+ "} ".

(** Step 3: the component tag of an entry that has a component. *)
Definition component_tag (d : Deps) (ent : slog.Entry) (enableColor : bool) : string :=
  let component := quoteKey d (Component ent) in
  "(" +:+ (if enableColor then Sprint d FgMagenta component else component) +:+ ") ".

(** Step 6, first half: the slice of fields handed to the encoder, and the
    heap once it is built. *)
Definition fields_for_encoding (d : Deps) (ent : slog.Entry)
    (h : gmap nat (list Field)) : slice * gmap nat (list Field) :=
  if decide (SpanContext ent ≠ trace.zero) then
    let '(m, h) :=
      slog_Map d [F "trace" (ATraceID (trace.TraceID (SpanContext ent)));
                  F "span" (ASpanID (trace.SpanID (SpanContext ent)))] h in
    append (growcap d) m (elems h (Fields ent)) h
  else (Fields ent, h).

(** Step 6, second half: what follows the message, for the fields [fs]
    handed to the encoder. *)
Definition field_block (d : Deps) (fs : list Field) : outcome string :=
  match Encode d fs with
  | slogval.Map m =>
    if JSONTest d then
      match m !! 2%nat with
      | None => Panics (index_out_of_range 2 (length m))
      | Some errVal =>
        Returns ((match Marshal d (take 2 m ++ drop 3 m) with
                  | Some fields => nl +:+ fields
                  | None => ""
                  end) +:+ nl +:+ fmtVal d [("error", errVal.2)])
      end
    else Returns (nl +:+ fmtVal d m)
  | _ => Returns ""
  end.

(** The six levels of the data model. *)
Definition known_level (level : Level) : Prop :=
  level ∈ [LevelDebug; LevelInfo; LevelWarn; LevelError; LevelCritical; LevelFatal].

(** A slice that lies within an allocated array (or has no cell at all). *)
Definition valid_slice (h : gmap nat (list Field)) (s : slice) : Prop :=
  (len s ≤ cap s)%nat ∧
  (cap s = 0%nat ∨
   ∃ a, h !! array s = Some a ∧ (offset s + cap s ≤ length a)%nat).

(** Decimal digits of a number below 100, below 1000. *)
Definition two_digits (n : Z) : string :=
  String (time.digit (n / 10)) (String (time.digit (n mod 10)) "").

Definition three_digits (n : Z) : string :=
  String (time.digit (n / 100)) (two_digits (n mod 100)).

(** A calendar time as [time.Time] holds it. *)
Definition valid_time (t : time.Time) : Prop :=
  (1 ≤ time.Month t ≤ 12 ∧ 1 ≤ time.Day t ≤ 31 ∧ 0 ≤ time.Hour t ≤ 23 ∧
   0 ≤ time.Minute t ≤ 59 ∧ 0 ≤ time.Second t ≤ 59 ∧
   0 ≤ time.Nanosecond t ≤ 999999999)%Z.

(** The same dependencies with other choices of capacity by [slog.Map]
    and by the runtime. *)
Definition with_capacities (spare : nat) (grow : nat → nat → nat) (d : Deps) : Deps :=
  mkDeps (Level_String d) (Sprint d) (Base d) (quoteKey d) (quote d) (fmtVal d)
         (Encode d) (JSONTest d) (Marshal d) spare grow.

(** The same entry with its fields in another slice. *)
Definition with_Fields (fields : slice) (ent : slog.Entry) : slog.Entry :=
  mkEntry (Time ent) (Level_ ent) (Message ent) (Component ent) (File ent)
          (Line ent) (SpanContext ent) fields.

(** The same fields as [ex_heap] holds for [ex_entry_of], in an array with
    room to spare and other cells around. *)
Definition ex_heap_roomy : gmap nat (list Field) :=
  {[ 7%nat := [F "retries" (AInt 3); F "stale" ANil];
     8%nat := [F "other" (AString "array"); F "retries" (AInt 3)] ]}.

End Humanfmt.

(* ===================================================================== *)
(** * Properties of package syncwriter *)
(* ===================================================================== *)

Module SyncwriterProps.

Import Syncwriter.

Local Open Scope Z_scope.

Lemma chain_Is_carries e code : chain_Is e code = true ↔ carries code e.
Proof.
  induction e as [c | prefix e IH | id msg]; simpl.
  - rewrite Z.eqb_eq. split; [intros ->; constructor | by inversion 1].
  - rewrite IH. split; [by constructor | by inversion 1].
  - split; [done | inversion 1].
Qed.

Lemma errorsIsAny_spec err errs :
  errorsIsAny err errs = true ↔ ∃ code, code ∈ errs ∧ errors_Is err code = true.
Proof.
  induction errs as [| e errs IH]; simpl.
  - split; [done | intros (? & []%elem_of_nil & _)].
  - destruct (errors_Is err e) eqn:He.
    + split; [| done]. intros _. exists e. split; [left | done].
    + rewrite IH. split.
      * intros (c & Hc & ?). exists c. split; [by right | done].
      * intros (c & [-> | Hc]%elem_of_cons & Hi); [congruence | eauto].
Qed.

Lemma errorsIsAny_carries e errs :
  errorsIsAny (Some e) errs = true ↔ ∃ code, code ∈ errs ∧ carries code e.
Proof.
  rewrite errorsIsAny_spec. split; intros (c & ? & Hc); exists c; split; try done.
  - by apply chain_Is_carries.
  - by apply chain_Is_carries.
Qed.

Lemma errorsIsAny_nil errs : errorsIsAny None errs = false.
Proof. induction errs; simpl; auto. Qed.

(** The side channel and the sink's bytes after the body of [Sync]. *)
Lemma Sync_locked_stderr sinkName st :
  stderr (Sync_locked sinkName st) =
    let s := w (writer st) in
    if negb (is_syncer s) then stderr st
    else if is_os_File s && errorsIsAny (sink_sync_result s) [EINVAL; ENOTTY; EBADF]
         then stderr st
         else stderr st ++
                ["failed to sync " +:+ sinkName +:+ ": " +:+ fmt_error (sink_sync_result s)].
Proof.
  destruct st as [[m [ty res calls data]] lines].
  unfold Sync_locked, sink_Sync, is_syncer, is_os_File; cbn -[errorsIsAny].
  destruct ty; cbn -[errorsIsAny]; try reflexivity.
  destruct (errorsIsAny res _); reflexivity.
Qed.

Lemma Sync_locked_data sinkName st :
  sink_data (w (writer (Sync_locked sinkName st))) = sink_data (w (writer st)).
Proof.
  destruct st as [[m [ty res calls data]] lines].
  unfold Sync_locked, sink_Sync, is_syncer, is_os_File; cbn -[errorsIsAny].
  destruct ty; cbn -[errorsIsAny]; try reflexivity.
  destruct (errorsIsAny res _); reflexivity.
Qed.

Lemma Sync_locked_mu sinkName st :
  mu (writer (Sync_locked sinkName st)) = mu (writer st).
Proof.
  destruct st as [[m [ty res calls data]] lines].
  unfold Sync_locked, sink_Sync, is_syncer, is_os_File; cbn -[errorsIsAny].
  destruct ty; cbn -[errorsIsAny]; try reflexivity.
  destruct (errorsIsAny res _); reflexivity.
Qed.

(** C1.  What the code does when the flush succeeds: for every wrapped sink
    that has a [Sync] method (a file or not), when that method returns nil,
    [Sync] returns normally and has written one line on the diagnostic side
    channel, [failed to sync <sinkName>: <nil>].  The report is not kept
    for the flushes that fail. *)
Theorem Sync_reports_a_successful_flush (sinkName : string) (st : World) :
  mu (writer st) = false →
  is_syncer (w (writer st)) = true →
  sink_sync_result (w (writer st)) = None →
  ∃ st', Sync sinkName st = Some st' ∧
         mu (writer st') = false ∧
         stderr st' = stderr st ++ ["failed to sync " +:+ sinkName +:+ ": <nil>"].
Proof.
  intros Hmu Hsync Hres. eexists. split; [| split].
  - unfold Sync. rewrite Hmu. reflexivity.
  - reflexivity.
  - cbn [writer stderr set_mu]. rewrite Sync_locked_stderr.
    cbn [writer w set_mu stderr mu]. rewrite Hsync, Hres, errorsIsAny_nil, andb_false_r.
    reflexivity.
Qed.

Lemma Sync_reports_a_successful_flush_witness :
  ∃ st', Sync "logfile" (mkWorld (New (mkSink OsFile None 0 [])) []) = Some st' ∧
         mu (writer st') = false ∧
         stderr st' = [] ++ ["failed to sync " +:+ "logfile" +:+ ": <nil>"].
Proof.
  apply (Sync_reports_a_successful_flush "logfile"
           (mkWorld (New (mkSink OsFile None 0 [])) [])); reflexivity.
Defined.

(** C6.  When the wrapped sink is an opened file and its flush fails with a
    failure that carries EINVAL, ENOTTY or EBADF, [Sync] returns normally,
    with the mutex released, nothing written on the diagnostic side channel
    and the bytes of the sink untouched. *)
Theorem Sync_swallows_unsupported_flush
    (sinkName : string) (st : World) (e : goerror) (code : Z) :
  mu (writer st) = false →
  sink_type (w (writer st)) = OsFile →
  sink_sync_result (w (writer st)) = Some e →
  code ∈ [EINVAL; ENOTTY; EBADF] →
  carries code e →
  ∃ st', Sync sinkName st = Some st' ∧
         stderr st' = stderr st ∧
         mu (writer st') = false ∧
         sink_data (w (writer st')) = sink_data (w (writer st)).
Proof.
  intros Hmu Hty Hres Hcode Hcar.
  assert (errorsIsAny (Some e) [EINVAL; ENOTTY; EBADF] = true) as Hany.
  { apply errorsIsAny_carries. eauto. }
  eexists. split; [| split; [| split]].
  - unfold Sync. rewrite Hmu. reflexivity.
  - cbn [writer stderr set_mu]. rewrite Sync_locked_stderr.
    cbn [writer w set_mu stderr mu].
    unfold is_syncer, is_os_File. rewrite Hty, Hres, Hany. reflexivity.
  - reflexivity.
  - cbn [writer w set_mu]. rewrite Sync_locked_data. reflexivity.
Qed.

Lemma Sync_swallows_unsupported_flush_witness :
  ∃ st', Sync "stderr"
           (mkWorld (New (mkSink OsFile (Some (Wrap "sync /dev/stderr" (Errno EINVAL))) 0 []))
                    []) = Some st' ∧
         stderr st' = [] ∧
         mu (writer st') = false ∧
         sink_data (w (writer st')) = [].
Proof.
  apply (Sync_swallows_unsupported_flush "stderr"
           (mkWorld (New (mkSink OsFile (Some (Wrap "sync /dev/stderr" (Errno EINVAL))) 0 []))
                    [])
           (Wrap "sync /dev/stderr" (Errno EINVAL)) EINVAL).
  - reflexivity.
  - reflexivity.
  - reflexivity.
  - apply list_elem_of_here.
  - apply carries_inner, carries_here.
Defined.

End SyncwriterProps.

(* ===================================================================== *)
(** * Properties of package humanfmt *)
(* ===================================================================== *)

Module HumanfmtProps.

Import color slog Humanfmt.

Lemma append_assoc (a b c : string) : (a +:+ b) +:+ c = a +:+ (b +:+ c).
Proof.
  induction a as [| x a IH]; [reflexivity |].
  change (String x ((a +:+ b) +:+ c) = String x (a +:+ (b +:+ c))).
  by rewrite IH.
Qed.

Lemma append_nil_r (a : string) : a +:+ "" = a.
Proof.
  induction a as [| x a IH]; [reflexivity |].
  change (String x (a +:+ "") = String x a). by rewrite IH.
Qed.

Lemma append_nil_l (a : string) : "" +:+ a = a.
Proof. reflexivity. Qed.

(** [Entry] is the concatenation of the tokens of the layout, followed by
    the field block of the fields handed to the encoder; it panics when
    the level tag or the field block does. *)
Lemma Entry_layout (d : Deps) (ent : slog.Entry) (enableColor : bool)
    (h : gmap nat (list Field)) :
  Entry d ent enableColor h =
    match level_tag d ent enableColor with
    | Panics f => (Panics f, h)
    | Returns tag =>
      let '(fs, h') := fields_for_encoding d ent h in
      (match field_block d (elems h' fs) with
       | Panics f => Panics f
       | Returns block =>
         Returns (tag +:+ location_tag d ent enableColor
                      +:+ (if decide (Component ent ≠ "")
                           then component_tag d ent enableColor else "")
                      +:+ time.Format (Time ent) timestampMilli
                      +:+ ": " +:+ quote d (Message ent)
                      +:+ block)
       end, h')
    end.
Proof.
  unfold Entry, level_tag, fields_for_encoding, field_block,
    location_tag, component_tag.
  destruct (decide (Component ent ≠ "")) as [Hc | Hc];
    destruct enableColor;
    (try destruct (levelColor (Level_ ent)) as [c | f]); try reflexivity;
    (destruct (decide (SpanContext ent ≠ trace.zero));
     [ destruct (slog_Map _ _ _) as [m0 h0]; destruct (append _ _ _ _) as [fs h']
     | ]);
    (match goal with
     | |- context [Encode d ?x] => destruct (Encode d x) as [| | m]
     end);
    try (destruct (JSONTest d); [destruct (m !! 2%nat) as [errVal |];
                                 [destruct (Marshal d _) |] |]);
    cbn [fst snd]; try reflexivity;
    f_equal; f_equal; rewrite ?append_assoc, ?append_nil_r; reflexivity.
Qed.

(** ** The heap behind the fields *)

Section heap.
Implicit Types (h : gmap nat (list Field)) (s : slice) (xs : list Field).

Lemma alloc_fresh xs spare h : array (alloc xs spare h).1 ∉ dom h.
Proof. apply is_fresh. Qed.

Lemma alloc_frame xs spare h l :
  l ∈ dom h → (alloc xs spare h).2 !! l = h !! l.
Proof.
  intros Hl. unfold alloc; cbn [snd].
  apply lookup_insert_ne. intros <-. by apply (is_fresh (dom h)).
Qed.

Lemma alloc_elems xs spare h :
  elems (alloc xs spare h).2 (alloc xs spare h).1 = xs.
Proof.
  unfold alloc, elems; cbn [fst snd array offset len].
  rewrite lookup_insert_eq. simpl. rewrite drop_0.
  by rewrite take_app_length.
Qed.

Lemma elems_frame h h' s :
  valid_slice h s → (∀ l, l ∈ dom h → h' !! l = h !! l) →
  elems h' s = elems h s.
Proof.
  intros [Hlen [Hcap | (a & Ha & _)]] Hframe.
  - unfold elems. assert (len s = 0%nat) as -> by lia. by rewrite !take_0.
  - unfold elems. rewrite Hframe; [done |]. apply elem_of_dom. eauto.
Qed.

Lemma append_frame growcap s xs h l :
  l ∈ dom h → l ≠ array s → (append growcap s xs h).2 !! l = h !! l.
Proof.
  intros Hl Hne. unfold append.
  destruct (_ <=? _)%nat; cbn [snd].
  - by apply lookup_alter_ne.
  - by apply alloc_frame.
Qed.

Lemma append_elems growcap s xs h a :
  h !! array s = Some a → offset s = 0%nat → (cap s ≤ length a)%nat →
  (len s ≤ cap s)%nat →
  elems (append growcap s xs h).2 (append growcap s xs h).1 = elems h s ++ xs.
Proof.
  intros Ha Hoff Hcap Hlen. unfold append.
  destruct (_ <=? _)%nat eqn:Hfit.
  - apply Nat.leb_le in Hfit.
    unfold elems; cbn [fst snd array offset len].
    rewrite lookup_alter_eq, Ha, Hoff. simpl. rewrite !drop_0.
    unfold write_at.
    rewrite (app_assoc (take _ _)).
    rewrite take_app_le by (rewrite length_app, length_take; lia).
    rewrite take_ge by (rewrite length_app, length_take; lia).
    done.
  - apply alloc_elems.
Qed.

Lemma append_array growcap s xs h :
  array (append growcap s xs h).1 = array s ∨ array (append growcap s xs h).1 ∉ dom h.
Proof.
  unfold append. destruct (_ <=? _)%nat; cbn [fst array]; [by left |].
  right. apply alloc_fresh.
Qed.

Lemma alloc_dom xs spare h l : l ∈ dom h → l ∈ dom (alloc xs spare h).2.
Proof.
  intros Hl. unfold alloc; cbn [snd]. rewrite dom_insert_L. set_solver.
Qed.

Lemma alloc_lookup xs spare h :
  (alloc xs spare h).2 !! array (alloc xs spare h).1
  = Some (xs ++ replicate spare zeroField).
Proof. unfold alloc; cbn [fst snd array]. apply lookup_insert_eq. Qed.

Variables (d : Deps) (ent : slog.Entry).

Lemma fields_for_encoding_zero h :
  SpanContext ent = trace.zero → fields_for_encoding d ent h = (Fields ent, h).
Proof. intros Hz. unfold fields_for_encoding. by rewrite decide_False by tauto. Qed.

Lemma fields_for_encoding_frame h l :
  l ∈ dom h → (fields_for_encoding d ent h).2 !! l = h !! l.
Proof.
  intros Hl. unfold fields_for_encoding, slog_Map.
  destruct (decide _); [| done].
  destruct (alloc _ _ h) as [m0 h0] eqn:Halloc.
  pose proof (alloc_fresh [F "trace" (ATraceID (trace.TraceID (SpanContext ent)));
                           F "span" (ASpanID (trace.SpanID (SpanContext ent)))]
                          (Map_spare d) h) as Hfresh.
  pose proof (alloc_frame [F "trace" (ATraceID (trace.TraceID (SpanContext ent)));
                           F "span" (ASpanID (trace.SpanID (SpanContext ent)))]
                          (Map_spare d) h l Hl) as Hfr.
  pose proof (alloc_dom [F "trace" (ATraceID (trace.TraceID (SpanContext ent)));
                         F "span" (ASpanID (trace.SpanID (SpanContext ent)))]
                        (Map_spare d) h l Hl) as Hdom.
  rewrite Halloc in Hfresh, Hfr, Hdom. cbn [fst snd] in *.
  rewrite append_frame; [done | done |]. by intros ->.
Qed.

Lemma fields_for_encoding_span h :
  SpanContext ent ≠ trace.zero → valid_slice h (Fields ent) →
  elems (fields_for_encoding d ent h).2 (fields_for_encoding d ent h).1
    = F "trace" (ATraceID (trace.TraceID (SpanContext ent)))
        :: F "span" (ASpanID (trace.SpanID (SpanContext ent)))
        :: elems h (Fields ent)
  ∧ array (fields_for_encoding d ent h).1 ∉ dom h.
Proof.
  intros Hnz Hvalid. unfold fields_for_encoding, slog_Map.
  rewrite decide_True by done.
  set (two := [F "trace" (ATraceID (trace.TraceID (SpanContext ent)));
               F "span" (ASpanID (trace.SpanID (SpanContext ent)))]).
  pose proof (alloc_fresh two (Map_spare d) h) as Hfresh.
  pose proof (alloc_elems two (Map_spare d) h) as Helems.
  pose proof (alloc_lookup two (Map_spare d) h) as Hlook.
  assert (elems (alloc two (Map_spare d) h).2 (Fields ent) = elems h (Fields ent))
    as Hsame.
  { apply elems_frame; [done |]. intros l Hl. by apply alloc_frame. }
  assert (∀ l, l ∈ dom h → l ∈ dom (alloc two (Map_spare d) h).2) as Hdom.
  { intros l. apply alloc_dom. }
  destruct (alloc two (Map_spare d) h) as [m0 h0] eqn:Halloc.
  cbn [fst snd] in *. split.
  - rewrite (append_elems _ _ _ _ _ Hlook).
    + by rewrite Helems, Hsame.
    + by injection Halloc as <- _.
    + injection Halloc as <- _. cbn [cap].
      rewrite length_app, length_replicate. done.
    + injection Halloc as <- _. cbn [len cap]. lia.
  - destruct (append_array (growcap d) m0 (elems h0 (Fields ent)) h0) as [-> | Hnew];
      [done |].
    intros Hin. apply Hnew, Hdom, Hin.
Qed.

End heap.

(** ** The timestamp *)

Section timestamp.
Local Open Scope Z_scope.

Lemma appendInt_two (x : Z) : 0 ≤ x < 100 → time.appendInt x 2 = two_digits x.
Proof.
  intros Hx. unfold time.appendInt, two_digits.
  rewrite (proj2 (Z.ltb_ge x 0)) by lia.
  rewrite Z.abs_eq by lia.
  rewrite (proj2 (Z.ltb_lt x (10 ^ Z.of_nat 2))) by (simpl; lia).
  cbn [andb Nat.ltb Nat.leb time.zero_padded].
  rewrite (Z.mod_small (x / 10) 10) by (Z.div_mod_to_equations; lia).
  reflexivity.
Qed.

Lemma millis_three (ns : Z) :
  0 ≤ ns ≤ 999999999 → time.millis ns = "." +:+ three_digits (ns / 1000000).
Proof.
  intros Hns. unfold time.millis, time.appendInt, three_digits, two_digits.
  rewrite (proj2 (Z.ltb_ge ns 0)) by lia.
  rewrite Z.abs_eq by lia.
  rewrite (proj2 (Z.ltb_lt ns (10 ^ Z.of_nat 9))) by (simpl; lia).
  cbn [andb Nat.ltb Nat.leb time.zero_padded String.substring].
  rewrite append_nil_l.
  rewrite !Z.div_div by lia.
  cbv [String.substring].
  f_equal. f_equal; [| f_equal; [| f_equal]]; try reflexivity; f_equal;
    Z.div_mod_to_equations; lia.
Qed.

Lemma Format_timestampMilli (t : time.Time) :
  valid_time t →
  time.Format t timestampMilli =
    time.month_abbrev (time.Month t) +:+ " " +:+ two_digits (time.Day t) +:+ " "
      +:+ two_digits (time.Hour t) +:+ ":" +:+ two_digits (time.Minute t) +:+ ":"
      +:+ two_digits (time.Second t) +:+ "." +:+ three_digits (time.Nanosecond t / 1000000).
Proof.
  intros (Hmo & Hd & Hh & Hmi & Hs & Hns).
  unfold time.Format, timestampMilli.
  cbn [String.list_ascii_of_string time.format_layout time.starts_with_digit].
  rewrite !appendInt_two, millis_three by lia.
  rewrite ?append_assoc. reflexivity.
Qed.

End timestamp.

(** ** The level tag *)

Lemma known_level_range (level : Level) : known_level level ↔ (0 ≤ level ≤ 5)%Z.
Proof.
  unfold known_level, LevelDebug, LevelInfo, LevelWarn, LevelError,
    LevelCritical, LevelFatal.
  rewrite !elem_of_cons, elem_of_nil. lia.
Qed.

Lemma levelColor_unknown (level : Level) :
  ¬ known_level level → levelColor level = Panics (unexpected_level level).
Proof.
  rewrite known_level_range. intros Hl. unfold levelColor,
    LevelDebug, LevelInfo, LevelWarn, LevelError, LevelCritical, LevelFatal.
  repeat (destruct (decide _) as [? | _]; [lia |]). reflexivity.
Qed.

Lemma levelColor_known (level : Level) :
  known_level level → ∃ c, levelColor level = Returns c.
Proof.
  intros Hl. unfold levelColor.
  repeat (destruct (decide _); [eauto |]).
  exfalso. apply known_level_range in Hl.
  unfold LevelDebug, LevelInfo, LevelWarn, LevelError, LevelCritical,
    LevelFatal in *. lia.
Qed.

(** Without colour the level tag is built from [String] alone. *)
Lemma level_tag_plain (d : Deps) (ent : slog.Entry) :
  level_tag d ent false = Returns ("[" +:+ Level_String d (Level_ ent) +:+ "] ").
Proof. reflexivity. Qed.

(** The counterexample to C2 as stated: level 7 is none of the six levels,
    and without colour [Entry] formats the entry, with the level tag that
    [String] gives. *)
Lemma Entry_formats_unknown_level_without_color :
  ¬ known_level 7%Z ∧
  (Entry (ex_Deps false) (ex_entry_of 7%Z "" trace.zero) false ex_heap).1
  = Returns "[slog.Level(7)] {server.go:42} Jan 02 15:04:05.123: boom
retries: 3".
Proof.
  split; [rewrite known_level_range; lia | vm_compute; reflexivity].
Qed.

(** C2, amended.  For an entry whose level is none of the six: with colour
    enabled [Entry] panics in [levelColor], before it touches the heap;
    with colour disabled the level is not checked: [Entry] never raises
    the unexpected-level panic, what it returns starts with the tag made
    of whatever [String] gives for the level, and outside the JSON test
    mode it does return. *)
Theorem unknown_level_panics_with_color_only
    (d : Deps) (ent : slog.Entry) (h : gmap nat (list Field)) :
  ¬ known_level (Level_ ent) →
  Entry d ent true h = (Panics (unexpected_level (Level_ ent)), h)
  ∧ (∀ level, (Entry d ent false h).1 ≠ Panics (unexpected_level level))
  ∧ (∀ s, (Entry d ent false h).1 = Returns s →
       ∃ rest, s = "[" +:+ Level_String d (Level_ ent) +:+ "] " +:+ rest)
  ∧ (JSONTest d = false → ∃ s, (Entry d ent false h).1 = Returns s).
Proof.
  intros Hunknown. split; [| split; [| split]].
  - rewrite Entry_layout. unfold level_tag.
    by rewrite (levelColor_unknown _ Hunknown).
  - intros level. rewrite Entry_layout, level_tag_plain.
    destruct (fields_for_encoding d ent h) as [fs h'].
    unfold field_block. cbn [fst].
    destruct (Encode d _) as [| | m]; try done.
    destruct (JSONTest d); [| done].
    destruct (m !! 2%nat); done.
  - intros s. rewrite Entry_layout, level_tag_plain.
    destruct (fields_for_encoding d ent h) as [fs h']. cbn [fst].
    destruct (field_block d _) as [block | f]; [| done].
    intros [= <-]. eexists. rewrite !append_assoc. reflexivity.
  - intros Hjson. rewrite Entry_layout, level_tag_plain.
    destruct (fields_for_encoding d ent h) as [fs h']. cbn [fst].
    unfold field_block. rewrite Hjson.
    destruct (Encode d _); eauto.
Qed.

Lemma unknown_level_panics_with_color_only_witness :
  Entry (ex_Deps false) (ex_entry_of 7%Z "" trace.zero) true ex_heap
    = (Panics (unexpected_level 7%Z), ex_heap)
  ∧ (∀ level, (Entry (ex_Deps false) (ex_entry_of 7%Z "" trace.zero) false ex_heap).1
              ≠ Panics (unexpected_level level))
  ∧ (∀ s, (Entry (ex_Deps false) (ex_entry_of 7%Z "" trace.zero) false ex_heap).1
          = Returns s →
       ∃ rest, s = "[" +:+ "slog.Level(7)" +:+ "] " +:+ rest)
  ∧ (false = false →
     ∃ s, (Entry (ex_Deps false) (ex_entry_of 7%Z "" trace.zero) false ex_heap).1
          = Returns s).
Proof.
  apply (unknown_level_panics_with_color_only
           (ex_Deps false) (ex_entry_of 7%Z "" trace.zero) ex_heap).
  rewrite known_level_range. simpl. lia.
Defined.

(** ** The component tag *)

(** C7.  When [Entry] returns, its output is the level tag, the location
    tag, then: for an empty component the timestamp at once (no
    parenthesized token), for a component that is not empty one token
    [(component) ] (the component through [quoteKey], coloured magenta when
    colour is on) and then the timestamp; the message and the field block
    follow. *)
Theorem component_token_iff_component
    (d : Deps) (ent : slog.Entry) (enableColor : bool)
    (h : gmap nat (list Field)) (s : string) :
  (Entry d ent enableColor h).1 = Returns s →
  ∃ tag block,
    level_tag d ent enableColor = Returns tag ∧
    (Component ent = "" →
       s = tag +:+ location_tag d ent enableColor
               +:+ time.Format (Time ent) timestampMilli
               +:+ ": " +:+ quote d (Message ent) +:+ block) ∧
    (Component ent ≠ "" →
       s = tag +:+ location_tag d ent enableColor
               +:+ "(" +:+ (if enableColor
                            then Sprint d FgMagenta (quoteKey d (Component ent))
                            else quoteKey d (Component ent)) +:+ ") "
               +:+ time.Format (Time ent) timestampMilli
               +:+ ": " +:+ quote d (Message ent) +:+ block).
Proof.
  rewrite Entry_layout.
  destruct (level_tag d ent enableColor) as [tag | f]; [| done].
  destruct (fields_for_encoding d ent h) as [fs h']. cbn [fst].
  destruct (field_block d _) as [block | f]; [| done].
  intros [= <-]. exists tag, block. split; [done |].
  unfold component_tag. destruct (decide (Component ent ≠ "")) as [Hc | Hc].
  - split; [done |]. intros _. by rewrite !append_assoc.
  - split; [| done]. intros _. reflexivity.
Qed.

Lemma component_token_iff_component_witness :
  ∃ tag block,
    level_tag (ex_Deps false) ex_entry_api false = Returns tag ∧
    (Component ex_entry_api = "" →
       "[INFO] {server.go:42} (api) Jan 02 15:04:05.123: boom
retries: 3"
       = tag +:+ location_tag (ex_Deps false) ex_entry_api false
             +:+ time.Format (Time ex_entry_api) timestampMilli
             +:+ ": " +:+ quote (ex_Deps false) (Message ex_entry_api) +:+ block) ∧
    (Component ex_entry_api ≠ "" →
       "[INFO] {server.go:42} (api) Jan 02 15:04:05.123: boom
retries: 3"
       = tag +:+ location_tag (ex_Deps false) ex_entry_api false
             +:+ "(" +:+ quoteKey (ex_Deps false) (Component ex_entry_api) +:+ ") "
             +:+ time.Format (Time ex_entry_api) timestampMilli
             +:+ ": " +:+ quote (ex_Deps false) (Message ex_entry_api) +:+ block).
Proof.
  apply (component_token_iff_component (ex_Deps false) ex_entry_api false ex_heap).
  vm_compute. reflexivity.
Defined.

(** ** The timestamp in the output *)



(** ** The fields handed to the encoder *)

(** The counterexample to C4 as stated: an entry with the empty span
    context whose caller supplied a field named [trace]; the key is handed
    to the encoder and shows in the field block. *)
Lemma trace_key_of_the_caller_is_rendered :
  SpanContext ex_entry_api = trace.zero
  ∧ (let '(fs, h') := fields_for_encoding (ex_Deps false) ex_entry_api ex_heap_trace in
     Name <$> elems h' fs) = ["trace"]
  ∧ (Entry (ex_Deps false) ex_entry_api false ex_heap_trace).1
    = Returns "[INFO] {server.go:42} (api) Jan 02 15:04:05.123: boom
trace: caller".
Proof. split; [reflexivity | split; vm_compute; reflexivity]. Qed.

(** C4, amended.  The fields handed to the encoder are the caller's fields
    when the span context is the empty one (nothing is added, so a trace or
    span key is there only if the caller supplied a field of that name),
    and otherwise the field [trace], the field [span], then the caller's
    fields in their order.  The field block of the output is the rendering
    of exactly these fields. *)
Theorem span_fields_lead_the_field_block
    (d : Deps) (ent : slog.Entry) (enableColor : bool)
    (h : gmap nat (list Field)) :
  valid_slice h (Fields ent) →
  let shown :=
    if decide (SpanContext ent = trace.zero) then elems h (Fields ent)
    else F "trace" (ATraceID (trace.TraceID (SpanContext ent)))
           :: F "span" (ASpanID (trace.SpanID (SpanContext ent)))
           :: elems h (Fields ent) in
  elems (fields_for_encoding d ent h).2 (fields_for_encoding d ent h).1 = shown
  ∧ (∀ tag, level_tag d ent enableColor = Returns tag →
       (Entry d ent enableColor h).1 =
         match field_block d shown with
         | Panics f => Panics f
         | Returns block =>
           Returns (tag +:+ location_tag d ent enableColor
                        +:+ (if decide (Component ent ≠ "")
                             then component_tag d ent enableColor else "")
                        +:+ time.Format (Time ent) timestampMilli
                        +:+ ": " +:+ quote d (Message ent) +:+ block)
         end)
  ∧ (SpanContext ent = trace.zero →
     (∀ f, f ∈ elems h (Fields ent) → Name f ≠ "trace" ∧ Name f ≠ "span") →
     ∀ f, f ∈ shown → Name f ≠ "trace" ∧ Name f ≠ "span").
Proof.
  intros Hvalid shown.
  assert (elems (fields_for_encoding d ent h).2 (fields_for_encoding d ent h).1
          = shown) as Hshown.
  { unfold shown. destruct (decide (SpanContext ent = trace.zero)) as [Hz | Hnz].
    - by rewrite fields_for_encoding_zero.
    - by apply fields_for_encoding_span. }
  split; [done |]. split.
  - intros tag Htag. rewrite Entry_layout, Htag.
    destruct (fields_for_encoding d ent h) as [fs h'].
    cbn [fst snd] in *. by rewrite Hshown.
  - intros Hz Hcaller. unfold shown. by rewrite decide_True.
Qed.

Lemma span_fields_lead_the_field_block_witness :
  elems (fields_for_encoding (ex_Deps false) ex_entry_traced ex_heap).2
        (fields_for_encoding (ex_Deps false) ex_entry_traced ex_heap).1
  = [F "trace" (ATraceID 171); F "span" (ASpanID 205); F "retries" (AInt 3)]
  ∧ (∀ tag, level_tag (ex_Deps false) ex_entry_traced false = Returns tag →
       (Entry (ex_Deps false) ex_entry_traced false ex_heap).1 =
         match field_block (ex_Deps false)
                 [F "trace" (ATraceID 171); F "span" (ASpanID 205);
                  F "retries" (AInt 3)] with
         | Panics f => Panics f
         | Returns block =>
           Returns (tag +:+ location_tag (ex_Deps false) ex_entry_traced false
                        +:+ (if decide (Component ex_entry_traced ≠ "")
                             then component_tag (ex_Deps false) ex_entry_traced false
                             else "")
                        +:+ time.Format (Time ex_entry_traced) timestampMilli
                        +:+ ": " +:+ quote (ex_Deps false) (Message ex_entry_traced)
                        +:+ block)
         end)
  ∧ (SpanContext ex_entry_traced = trace.zero →
     (∀ f, f ∈ elems ex_heap (Fields ex_entry_traced) →
           Name f ≠ "trace" ∧ Name f ≠ "span") →
     ∀ f, f ∈ [F "trace" (ATraceID 171); F "span" (ASpanID 205);
               F "retries" (AInt 3)] →
          Name f ≠ "trace" ∧ Name f ≠ "span").
Proof.
  apply (span_fields_lead_the_field_block (ex_Deps false) ex_entry_traced false ex_heap).
  split; [simpl; lia |]. right. exists [F "retries" (AInt 3)].
  split; [reflexivity | simpl; lia].
Defined.

(** ** The caller's fields *)

Lemma fields_for_encoding_offset (d : Deps) (ent : slog.Entry)
    (h : gmap nat (list Field)) :
  SpanContext ent ≠ trace.zero → offset (fields_for_encoding d ent h).1 = 0%nat.
Proof.
  intros Hnz. unfold fields_for_encoding, slog_Map, alloc, append.
  rewrite decide_True by done. cbn [fst snd len cap offset array].
  by destruct (_ <=? _)%nat.
Qed.

(** The array behind the slice handed to the encoder: it did not exist
    before, and its cells start with [trace], [span] and the caller's
    fields. *)
Lemma fields_for_encoding_array (d : Deps) (ent : slog.Entry)
    (h : gmap nat (list Field)) :
  SpanContext ent ≠ trace.zero → valid_slice h (Fields ent) →
  (array (fields_for_encoding d ent h).1 ∉ dom h)
  ∧ ∃ rest,
      (fields_for_encoding d ent h).2 !! array (fields_for_encoding d ent h).1
      = Some (F "trace" (ATraceID (trace.TraceID (SpanContext ent)))
                :: F "span" (ASpanID (trace.SpanID (SpanContext ent)))
                :: elems h (Fields ent) ++ rest).
Proof.
  intros Hnz Hvalid.
  destruct (fields_for_encoding_span d ent h Hnz Hvalid) as [Helems Hfresh].
  split; [done |].
  pose proof (fields_for_encoding_offset d ent h Hnz) as Hoff.
  unfold elems in Helems at 1. rewrite Hoff, drop_0 in Helems.
  destruct ((fields_for_encoding d ent h).2 !! array (fields_for_encoding d ent h).1)
    as [a |]; cbn [default from_option id] in Helems.
  - exists (drop (len (fields_for_encoding d ent h).1) a).
    rewrite <- (take_drop (len (fields_for_encoding d ent h).1) a) at 1.
    by rewrite Helems.
  - by rewrite take_nil in Helems.
Qed.

Lemma level_tag_returns (d : Deps) (ent : slog.Entry) (enableColor : bool) :
  enableColor = false ∨ known_level (Level_ ent) →
  ∃ tag, level_tag d ent enableColor = Returns tag.
Proof.
  unfold level_tag. intros [-> | Hk]; [by eauto |].
  destruct enableColor; [| by eauto].
  destruct (levelColor_known _ Hk) as [c ->]. by eauto.
Qed.

(** C5.  For an entry with a span context that is not the empty one (and
    whose slice of fields lies in the heap).  Whatever [Entry] does, every
    array that existed before the call has the same cells after it, and
    the caller's slice still reads the same fields.  When [Entry] gets
    past the level tag (colour off, or one of the six levels), the heap it
    leaves holds an array that did not exist before the call, whose cells
    start with [trace], [span] and a copy of the caller's fields, and the
    outcome of [Entry] is the one the encoder gives for that sequence.
    When it does not (colour on and another level), it panics with the
    heap as it was. *)
Theorem Entry_leaves_the_caller_fields
    (d : Deps) (ent : slog.Entry) (enableColor : bool)
    (h : gmap nat (list Field)) :
  SpanContext ent ≠ trace.zero →
  valid_slice h (Fields ent) →
  let sequence :=
    F "trace" (ATraceID (trace.TraceID (SpanContext ent)))
      :: F "span" (ASpanID (trace.SpanID (SpanContext ent)))
      :: elems h (Fields ent) in
  let h' := (Entry d ent enableColor h).2 in
  (∀ l, l ∈ dom h → h' !! l = h !! l)
  ∧ elems h' (Fields ent) = elems h (Fields ent)
  ∧ (enableColor = false ∨ known_level (Level_ ent) →
       (∃ l rest, (l ∉ dom h) ∧ h' !! l = Some (sequence ++ rest))
       ∧ ∃ tag,
           level_tag d ent enableColor = Returns tag
           ∧ (Entry d ent enableColor h).1
             = match field_block d sequence with
               | Panics f => Panics f
               | Returns block =>
                 Returns (tag +:+ location_tag d ent enableColor
                              +:+ (if decide (Component ent ≠ "")
                                   then component_tag d ent enableColor else "")
                              +:+ time.Format (Time ent) timestampMilli
                              +:+ ": " +:+ quote d (Message ent) +:+ block)
               end)
  ∧ (enableColor = true → ¬ known_level (Level_ ent) →
       Entry d ent enableColor h = (Panics (unexpected_level (Level_ ent)), h)).
Proof.
  intros Hnz Hvalid sequence h'.
  destruct (fields_for_encoding_span d ent h Hnz Hvalid) as [Helems _].
  destruct (fields_for_encoding_array d ent h Hnz Hvalid) as [Hfresh [rest Harr]].
  assert (h' = h ∨ h' = (fields_for_encoding d ent h).2) as Hh'.
  { unfold h'. rewrite Entry_layout.
    destruct (level_tag d ent enableColor); [| by left].
    destruct (fields_for_encoding d ent h). by right. }
  assert (∀ l, l ∈ dom h → h' !! l = h !! l) as Hframe.
  { intros l Hl. destruct Hh' as [-> | ->]; [done |].
    by apply fields_for_encoding_frame. }
  split; [done |]. split; [by apply elems_frame |]. split.
  - intros Hpast. destruct (level_tag_returns d ent enableColor Hpast) as [tag Htag].
    assert (h' = (fields_for_encoding d ent h).2) as Hh.
    { unfold h'. rewrite Entry_layout, Htag.
      by destruct (fields_for_encoding d ent h). }
    split.
    + exists (array (fields_for_encoding d ent h).1), rest. by rewrite Hh.
    + exists tag. split; [done |]. rewrite Entry_layout, Htag.
      destruct (fields_for_encoding d ent h) as [fs h1].
      cbn [fst snd] in *. by rewrite Helems.
  - intros -> Hunknown. rewrite Entry_layout. unfold level_tag.
    by rewrite (levelColor_unknown _ Hunknown).
Qed.

Lemma Entry_leaves_the_caller_fields_witness :
  let sequence := [F "trace" (ATraceID 171); F "span" (ASpanID 205);
                   F "retries" (AInt 3)] in
  let h' := (Entry (ex_Deps false) ex_entry_traced false ex_heap).2 in
  (∀ l, l ∈ dom ex_heap → h' !! l = ex_heap !! l)
  ∧ elems h' (Fields ex_entry_traced) = [F "retries" (AInt 3)]
  ∧ (false = false ∨ known_level (Level_ ex_entry_traced) →
       (∃ l rest, (l ∉ dom ex_heap) ∧ h' !! l = Some (sequence ++ rest))
       ∧ ∃ tag,
           level_tag (ex_Deps false) ex_entry_traced false = Returns tag
           ∧ (Entry (ex_Deps false) ex_entry_traced false ex_heap).1
             = match field_block (ex_Deps false) sequence with
               | Panics f => Panics f
               | Returns block =>
                 Returns (tag +:+ location_tag (ex_Deps false) ex_entry_traced false
                              +:+ (if decide (Component ex_entry_traced ≠ "")
                                   then component_tag (ex_Deps false) ex_entry_traced false
                                   else "")
                              +:+ time.Format (Time ex_entry_traced) timestampMilli
                              +:+ ": " +:+ quote (ex_Deps false) (Message ex_entry_traced)
                              +:+ block)
               end)
  ∧ (false = true → ¬ known_level (Level_ ex_entry_traced) →
       Entry (ex_Deps false) ex_entry_traced false ex_heap
       = (Panics (unexpected_level (Level_ ex_entry_traced)), ex_heap)).
Proof.
  apply (Entry_leaves_the_caller_fields (ex_Deps false) ex_entry_traced false ex_heap).
  - discriminate.
  - split; [simpl; lia |]. right. exists [F "retries" (AInt 3)].
    split; [reflexivity | simpl; lia].
Defined.

(** An entry with a span context leaves a new array in the heap, and the
    array of the caller as it was. *)
Example Entry_traced_heap :
  (Entry (ex_Deps false) ex_entry_traced false ex_heap).2
  = <[ 9%nat := [F "trace" (ATraceID 171); F "span" (ASpanID 205);
                 F "retries" (AInt 3); zeroField] ]>
      (<[ 8%nat := [F "trace" (ATraceID 171); F "span" (ASpanID 205)] ]> ex_heap).
Proof. vm_compute. reflexivity. Qed.

(** ** The JSON test mode *)

(** C10.  With [slogval.JSONTest] set and the encoder returning a map [m]
    for the fields handed to it: when [m] has fewer than three entries
    [Entry] does not return a string, it panics, and (unless [levelColor]
    has panicked first) the panic is the index out of range at [m[2]];
    when [m] has a third entry, that entry is taken out, the rest is
    written as JSON on a line of its own (no line when [json.Marshal]
    fails) and the entry taken out is written by [fmtVal] under the name
    [error] on the last line. *)
Theorem JSONTest_takes_the_third_field
    (d : Deps) (ent : slog.Entry) (enableColor : bool)
    (h : gmap nat (list Field)) (m : list slogval.Field) :
  JSONTest d = true →
  Encode d (elems (fields_for_encoding d ent h).2 (fields_for_encoding d ent h).1)
    = slogval.Map m →
  ((length m < 3)%nat →
     (∃ f, (Entry d ent enableColor h).1 = Panics f) ∧
     (∀ tag, level_tag d ent enableColor = Returns tag →
        (Entry d ent enableColor h).1 = Panics (index_out_of_range 2 (length m))))
  ∧ (∀ tag f0 f1 errVal rest,
       level_tag d ent enableColor = Returns tag →
       m = f0 :: f1 :: errVal :: rest →
       (Entry d ent enableColor h).1 =
         Returns (tag +:+ location_tag d ent enableColor
                      +:+ (if decide (Component ent ≠ "")
                           then component_tag d ent enableColor else "")
                      +:+ time.Format (Time ent) timestampMilli
                      +:+ ": " +:+ quote d (Message ent)
                      +:+ (match Marshal d (f0 :: f1 :: rest) with
                           | Some fields => nl +:+ fields
                           | None => ""
                           end)
                      +:+ nl +:+ fmtVal d [("error", errVal.2)])).
Proof.
  intros Hjson Hm. split.
  - intros Hshort.
    assert (m !! 2%nat = None) as Hnone by (apply lookup_ge_None; lia).
    assert (field_block d (elems (fields_for_encoding d ent h).2
                                 (fields_for_encoding d ent h).1)
            = Panics (index_out_of_range 2 (length m))) as Hblock.
    { unfold field_block. rewrite Hm, Hjson. cbv beta iota.
      unfold slogval.Field in *. by rewrite Hnone. }
    split.
    + rewrite Entry_layout.
      destruct (level_tag d ent enableColor); [| by eauto].
      destruct (fields_for_encoding d ent h) as [fs h'].
      cbn [fst snd] in *. rewrite Hblock. eauto.
    + intros tag Htag. rewrite Entry_layout, Htag.
      destruct (fields_for_encoding d ent h) as [fs h'].
      cbn [fst snd] in *. by rewrite Hblock.
  - intros tag f0 f1 errVal rest Htag ->.
    rewrite Entry_layout, Htag.
    destruct (fields_for_encoding d ent h) as [fs h'].
    cbn [fst snd] in *. unfold field_block. rewrite Hm, Hjson.
    cbv beta iota. cbn [lookup list_lookup take drop app].
    rewrite ?append_assoc. reflexivity.
Qed.

Lemma JSONTest_takes_the_third_field_witness :
  ((length [("retries", slogval.Scalar "3")] < 3)%nat →
     (∃ f, (Entry (ex_Deps true) ex_entry_api false ex_heap).1 = Panics f) ∧
     (∀ tag, level_tag (ex_Deps true) ex_entry_api false = Returns tag →
        (Entry (ex_Deps true) ex_entry_api false ex_heap).1
        = Panics (index_out_of_range 2 (length [("retries", slogval.Scalar "3")]))))
  ∧ (∀ tag f0 f1 errVal rest,
       level_tag (ex_Deps true) ex_entry_api false = Returns tag →
       [("retries", slogval.Scalar "3")] = f0 :: f1 :: errVal :: rest →
       (Entry (ex_Deps true) ex_entry_api false ex_heap).1 =
         Returns (tag +:+ location_tag (ex_Deps true) ex_entry_api false
                      +:+ (if decide (Component ex_entry_api ≠ "")
                           then component_tag (ex_Deps true) ex_entry_api false else "")
                      +:+ time.Format (Time ex_entry_api) timestampMilli
                      +:+ ": " +:+ quote (ex_Deps true) (Message ex_entry_api)
                      +:+ (match Marshal (ex_Deps true) (f0 :: f1 :: rest) with
                           | Some fields => nl +:+ fields
                           | None => ""
                           end)
                      +:+ nl +:+ fmtVal (ex_Deps true) [("error", errVal.2)])).
Proof.
  apply (JSONTest_takes_the_third_field (ex_Deps true) ex_entry_api false ex_heap
           [("retries", slogval.Scalar "3")]).
  - reflexivity.
  - vm_compute. reflexivity.
Defined.

(** The entry of the end-to-end example of the specification. *)
Example Entry_error_example :
  (Entry (ex_Deps false) ex_entry false ex_heap).1
  = Returns "[ERROR] {server.go:42} Jan 02 15:04:05.123: boom
retries: 3".
Proof. vm_compute. reflexivity. Qed.

(** [time.StampMilli] pads the day with a space where [timestampMilli]
    pads it with a zero. *)
Example StampMilli_pads_with_space :
  time.Format ex_time time.StampMilli = "Jan  2 15:04:05.123"
  ∧ time.Format ex_time timestampMilli = "Jan 02 15:04:05.123".
Proof. split; vm_compute; reflexivity. Qed.

(** In the JSON test mode, an entry whose three fields reach the encoder. *)
Example JSONTest_three_fields :
  (Entry (ex_Deps true) ex_entry_traced false ex_heap).1
  = Returns ("[INFO] {server.go:42} (api) Jan 02 15:04:05.123: boom" +:+ nl
             +:+ "{" +:+ in_quotes "trace" +:+ ":" +:+ in_quotes "171" +:+ ","
             +:+ in_quotes "span" +:+ ":" +:+ in_quotes "205" +:+ "}" +:+ nl
             +:+ "error: 3").
Proof. vm_compute. reflexivity. Qed.

End HumanfmtProps.

(* ===================================================================== *)
(** * Several threads on one Writer *)
(* ===================================================================== *)

Module ConcurrencyProps.

Import Syncwriter SyncwriterProps.

Implicit Types (t : thread) (ts : list thread) (sys : system).

Lemma pending_insert_same ts i t t' :
  ts !! i = Some t → thread_payloads t' = thread_payloads t →
  pending (<[i := t']> ts) = pending ts.
Proof.
  intros Hi Hsame. unfold pending.
  rewrite list_fmap_insert, Hsame.
  rewrite list_insert_id; [done |]. by rewrite list_lookup_fmap, Hi.
Qed.

Lemma pending_insert_done ts i t t' p :
  ts !! i = Some t → thread_payloads t = p :: thread_payloads t' →
  pending ts ≡ₚ p :: pending (<[i := t']> ts).
Proof.
  intros Hi Hp. unfold pending.
  rewrite <- (take_drop_middle ts i t Hi) at 1.
  rewrite insert_take_drop by (by eapply lookup_lt_Some).
  rewrite !fmap_app, !fmap_cons, !concat_app, !concat_cons, Hp.
  cbn [app]. by rewrite <- Permutation_middle.
Qed.

Lemma busy_elsewhere ts i t t' j tj :
  ts !! i = Some t →
  (∀ j t0, j ≠ i → ts !! j = Some t0 → busy t0 = false) →
  busy t' = false →
  <[i := t']> ts !! j = Some tj → busy tj = false.
Proof.
  intros Hi Hothers Hidle Hj.
  destruct (decide (j = i)) as [-> | Hne].
  - rewrite list_lookup_insert_eq in Hj by (by eapply lookup_lt_Some).
    by injection Hj as <-.
  - rewrite list_lookup_insert_ne in Hj by done. eauto.
Qed.

(** A thread that is between [Lock] and [Unlock] is the one the invariant
    names. *)
Lemma busy_is_holder d0 all sys ps cur i t :
  serialized d0 all sys ps cur →
  threads sys !! i = Some t → busy t = true →
  mu (writer (world sys)) = true
  ∧ (∀ j t', j ≠ i → threads sys !! j = Some t' → busy t' = false)
  ∧ cur = match act t with
          | InWrite p n => take n p
          | _ => []
          end.
Proof.
  intros (_ & _ & Hlock) Hi Hbusy.
  destruct (mu (writer (world sys))).
  - destruct Hlock as (i0 & t0 & Hi0 & _ & Hothers & Hcur).
    destruct (decide (i = i0)) as [-> | Hne].
    + rewrite Hi in Hi0. injection Hi0 as <-. done.
    + rewrite (Hothers i t Hne Hi) in Hbusy. done.
  - destruct Hlock as [_ Hidle]. rewrite (Hidle i t Hi) in Hbusy. done.
Qed.

(** Each step of each thread keeps the invariant. *)
Lemma system_step_serialized d0 all sys i ps cur :
  serialized d0 all sys ps cur →
  ∃ ps' cur', serialized d0 all (system_step i sys) ps' cur'.
Proof.
  intros Hinv. unfold system_step.
  destruct (threads sys !! i) as [t |] eqn:Hi; [| by eauto].
  pose proof (lookup_lt_Some _ _ _ Hi) as Hlt.
  unfold thread_step.
  destruct t as [[| p n | name [|]] td]; cbn [act todo].
  - (* Lock *)
    destruct td as [| c cs]; [by eauto |].
    destruct (mu (writer (world sys))) eqn:Hmu; [by eauto |].
    destruct Hinv as (Hdata & Hperm & Hlock). rewrite Hmu in Hlock.
    destruct Hlock as [-> Hidle].
    exists ps, []. split; [done |]. split.
    + cbn [threads]. erewrite pending_insert_same; [done | done |].
      by destruct c.
    + cbn [world threads set_mu writer mu].
      eexists i, _. split; [by apply list_lookup_insert_eq |].
      split; [by destruct c |]. split.
      * intros j t' Hne Hj. rewrite list_lookup_insert_ne in Hj by done. eauto.
      * by destruct c.
  - (* a byte of the payload, or Unlock after the last one *)
    destruct (busy_is_holder _ _ _ _ _ _ _ Hinv Hi eq_refl) as (Hmu & Hothers & Hcur).
    destruct Hinv as (Hdata & Hperm & _). cbn [act] in Hcur.
    destruct (p !! n) as [b |] eqn:Hb.
    + exists ps, (take (S n) p). split; [| split].
      * cbn [world writer w set_sink sink_put sink_data].
        rewrite Hdata, Hcur, (take_S_r _ _ _ Hb). by rewrite <- !app_assoc.
      * cbn [threads]. by erewrite pending_insert_same.
      * cbn [world threads set_sink writer mu]. rewrite Hmu.
        eexists i, _. split; [by apply list_lookup_insert_eq |].
        split; [done |]. split; [| done].
        intros j t' Hne Hj. rewrite list_lookup_insert_ne in Hj by done. eauto.
    + apply lookup_ge_None in Hb.
      exists (ps ++ [p]), []. split; [| split].
      * cbn [world writer w set_mu sink_data].
        rewrite Hdata, Hcur, take_ge by done.
        by rewrite concat_app, <- !app_assoc, app_nil_r; cbn; rewrite app_nil_r.
      * cbn [threads]. rewrite <- Hperm.
        rewrite (pending_insert_done _ _ _ (mkThread Idle td) p Hi) by done.
        rewrite <- app_assoc. done.
      * cbn [world threads set_mu writer mu]. split; [done |].
        intros j t'. by eapply busy_elsewhere.
  - (* Unlock at the end of Sync *)
    destruct (busy_is_holder _ _ _ _ _ _ _ Hinv Hi eq_refl) as (Hmu & Hothers & Hcur).
    destruct Hinv as (Hdata & Hperm & _). cbn [act] in Hcur.
    exists ps, []. split; [| split].
    + cbn [world writer w set_mu sink_data]. by rewrite Hdata, Hcur.
    + cbn [threads]. by erewrite pending_insert_same.
    + cbn [world threads set_mu writer mu]. split; [done |].
      intros j t'. by eapply busy_elsewhere.
  - (* the body of Sync *)
    destruct (busy_is_holder _ _ _ _ _ _ _ Hinv Hi eq_refl) as (Hmu & Hothers & Hcur).
    destruct Hinv as (Hdata & Hperm & _). cbn [act] in Hcur.
    exists ps, []. split; [| split].
    + cbn [world]. by rewrite Sync_locked_data, Hdata, Hcur.
    + cbn [threads]. by erewrite pending_insert_same.
    + cbn [world threads]. rewrite Sync_locked_mu, Hmu.
      eexists i, _. split; [by apply list_lookup_insert_eq |].
      split; [done |]. split; [| done].
      intros j t' Hne Hj. rewrite list_lookup_insert_ne in Hj by done. eauto.
Qed.

(** ** The steps of one thread add up to the calls

    A thread that runs alone from a free mutex goes through [Write] in
    two steps more than the payload has bytes, through [Sync] in three,
    and leaves the world as the call does. *)

Lemma run_cons i schedule sys :
  run (i :: schedule) sys = run schedule (system_step i sys).
Proof. reflexivity. Qed.

Lemma run_bytes_alone p td k :
  ∀ n st, length p = (n + k)%nat →
    run (replicate (S k) 0%nat) (mkSystem st [mkThread (InWrite p n) td])
    = mkSystem (set_mu false
                  (set_sink (foldl (λ s b, sink_put b s) (w (writer st)) (drop n p)) st))
               [mkThread Idle td].
Proof.
  induction k as [| k IH]; intros n st Hlen.
  - cbn [replicate]. rewrite run_cons. unfold system_step, thread_step.
    cbn [threads lookup list_lookup act todo world].
    rewrite (proj2 (lookup_ge_None p n)) by lia.
    rewrite drop_ge by lia. by destruct st as [[m s] e].
  - cbn [replicate]. rewrite run_cons. unfold system_step, thread_step.
    cbn [threads lookup list_lookup act todo world].
    destruct (lookup_lt_is_Some_2 p n) as [b Hb]; [lia |].
    rewrite Hb. cbn [insert list_insert].
    rewrite (IH (S n)) by lia. rewrite (drop_S _ _ _ Hb). reflexivity.
Qed.

Lemma Write_is_a_run_alone p td st r st' :
  Write p st = Some (r, st') →
  run (replicate (S (S (length p))) 0%nat)
      (mkSystem st [mkThread Idle (CallWrite p :: td)])
  = mkSystem st' [mkThread Idle td].
Proof.
  unfold Write, Write_locked, sink_Write.
  destruct (mu (writer st)) eqn:Hmu; [done |]. intros [= <- <-].
  cbn [replicate]. rewrite run_cons. unfold system_step, thread_step.
  cbn [threads lookup list_lookup act todo world]. rewrite Hmu.
  cbn [insert list_insert].
  rewrite (run_bytes_alone p td (length p) 0%nat) by done.
  rewrite drop_0. reflexivity.
Qed.

Lemma Sync_is_a_run_alone sinkName td st st' :
  Sync sinkName st = Some st' →
  run [0; 0; 0]%nat (mkSystem st [mkThread Idle (CallSync sinkName :: td)])
  = mkSystem st' [mkThread Idle td].
Proof.
  unfold Sync. destruct st as [[[|] s] e]; [done |]. intros [= <-].
  reflexivity.
Qed.

Lemma start_serialized (s : Sink) (programs : list (list call)) :
  serialized (sink_data s) (concat (write_payloads <$> programs))
             (start s programs) [] [].
Proof.
  split; [| split].
  - cbn. by rewrite app_nil_r.
  - cbn [app start threads]. unfold pending.
    rewrite <- list_fmap_compose. done.
  - cbn [start world writer New mu threads]. split; [done |]. intros j t' Hj.
    apply list_lookup_fmap_Some in Hj as (cs & -> & _). done.
Qed.

Lemma run_serialized d0 all schedule :
  ∀ sys ps cur, serialized d0 all sys ps cur →
    ∃ ps' cur', serialized d0 all (run schedule sys) ps' cur'.
Proof.
  induction schedule as [| i schedule IH]; intros sys ps cur Hinv; [by eauto |].
  destruct (system_step_serialized _ _ _ i _ _ Hinv) as (ps1 & cur1 & Hinv1).
  exact (IH _ _ _ Hinv1).
Qed.

Lemma finished_pending sys : finished sys → pending (threads sys) = [].
Proof.
  unfold finished, pending. induction (threads sys) as [| t ts IH]; [done |].
  intros Hall. apply Forall_cons in Hall as [[Hact Htodo] Hrest].
  cbn. unfold thread_payloads at 1. rewrite Hact, Htodo. cbn. by apply IH.
Qed.

(** C9.  From a Writer that wraps the sink [s], with each thread given its
    list of [Write] and [Sync] calls, after whatever steps the threads take
    in whatever order: at most one thread is between its [Lock] and its
    [Unlock], so no [Sync] is under way while a [Write] is; and the sink
    holds what it held at first, then the whole payloads of the [Write]
    calls that are over, one after the other, then the bytes out so far of
    the one [Write] under way, if any.  The payloads over and those still
    to come are together the payloads of the programs; when every thread
    is done the sink holds each payload once, whole, in some order. *)
Theorem concurrent_calls_are_serialized
    (s : Sink) (programs : list (list call)) (schedule : list nat) :
  let sys := run schedule (start s programs) in
  (∀ i j ti tj, threads sys !! i = Some ti → threads sys !! j = Some tj →
                busy ti = true → busy tj = true → i = j)
  ∧ (∀ i j ti tj, threads sys !! i = Some ti → threads sys !! j = Some tj →
                  writing ti = true → syncing tj = true → False)
  ∧ ∃ ps cur,
      sink_data (w (writer (world sys))) = sink_data s ++ concat ps ++ cur
      ∧ ps ++ pending (threads sys) ≡ₚ concat (write_payloads <$> programs)
      ∧ (cur = [] ∨
         ∃ i p n td, threads sys !! i = Some (mkThread (InWrite p n) td)
                     ∧ cur = take n p)
      ∧ (finished sys →
         cur = [] ∧ ps ≡ₚ concat (write_payloads <$> programs)).
Proof.
  intros sys.
  destruct (run_serialized _ _ schedule _ _ _ (start_serialized s programs))
    as (ps & cur & Hinv). fold sys in Hinv.
  assert (∀ i j ti tj, threads sys !! i = Some ti → threads sys !! j = Some tj →
                       busy ti = true → busy tj = true → i = j) as Hexcl.
  { intros i j ti tj Hi Hj Hbi Hbj.
    destruct (busy_is_holder _ _ _ _ _ _ _ Hinv Hi Hbi) as (_ & Hothers & _).
    destruct (decide (j = i)) as [-> | Hne]; [done |].
    rewrite (Hothers j tj Hne Hj) in Hbj. done. }
  split; [done |]. split.
  - intros i j ti tj Hi Hj Hw Hs.
    assert (i = j) as ->.
    { apply (Hexcl i j ti tj Hi Hj).
      - unfold writing in Hw. unfold busy. by destruct (act ti).
      - unfold syncing in Hs. unfold busy. by destruct (act tj). }
    rewrite Hi in Hj. injection Hj as <-.
    unfold writing in Hw. unfold syncing in Hs. by destruct (act ti).
  - exists ps, cur. destruct Hinv as (Hdata & Hperm & Hlock).
    split; [done |]. split; [done |]. split.
    + destruct (mu (writer (world sys))).
      * destruct Hlock as (i & [a td] & Hi & _ & _ & Hcur). cbn [act] in Hcur.
        destruct a as [| p n | name done]; [by left | | by left].
        right. by exists i, p, n, td.
      * left. by destruct Hlock.
    + intros Hfin. rewrite (finished_pending _ Hfin), app_nil_r in Hperm.
      split; [| done].
      destruct (mu (writer (world sys))).
      * destruct Hlock as (i & t & Hi & Hbusy & _).
        unfold finished in Hfin. rewrite Forall_lookup in Hfin.
        destruct (Hfin i t Hi) as [Hact _].
        unfold busy in Hbusy. by rewrite Hact in Hbusy.
      * by destruct Hlock.
Qed.

(** Two runs of the two threads: whichever thread gets the mutex first,
    the other one's steps do nothing until it is released, and the buffer
    ends with [ab] and [cd] whole. *)
Example run_first_thread_first :
  run [0; 1; 0; 1; 0; 1; 0; 1; 1; 1; 1; 1; 1; 1]%nat (start ex_buffer ex_programs)
  = mkSystem (mkWorld (mkWriter false (mkSink WriterOnly None 0 (ex_ab ++ ex_cd))) [])
             [mkThread Idle []; mkThread Idle []].
Proof. vm_compute. reflexivity. Qed.

Example run_second_thread_first :
  run [1; 0; 1; 0; 1; 0; 1; 0; 0; 0; 0; 1; 1; 1]%nat (start ex_buffer ex_programs)
  = mkSystem (mkWorld (mkWriter false (mkSink WriterOnly None 0 (ex_cd ++ ex_ab))) [])
             [mkThread Idle []; mkThread Idle []].
Proof. vm_compute. reflexivity. Qed.

End ConcurrencyProps.

(* ===================================================================== *)
(** * More on package syncwriter *)
(* ===================================================================== *)

Module SyncwriterFacts.

Import Syncwriter SyncwriterProps.

Local Open Scope Z_scope.


(** X2.  On a sink that has no [Sync] method, [Sync] called with the mutex
    free returns and leaves everything as it was: the sink, the count of
    calls to its methods, the mutex and the diagnostic side channel. *)
Theorem Sync_without_method_changes_nothing (sinkName : string) (st : World) :
  mu (writer st) = false →
  sink_type (w (writer st)) = WriterOnly →
  Sync sinkName st = Some st.
Proof.
  intros Hmu Hty. unfold Sync, Sync_locked, is_syncer.
  destruct st as [[m s] lines]. cbn in *. by rewrite Hmu, Hty; subst.
Qed.

Lemma Sync_without_method_changes_nothing_witness :
  Sync "buffer" ex_world = Some ex_world.
Proof.
  apply (Sync_without_method_changes_nothing "buffer" ex_world); reflexivity.
Defined.



(** X4.  [Sync] blocks exactly when the mutex is held.  When it returns,
    the mutex is free, the sink has the same type and the same bytes, its
    [Sync] method has been called once if it has one and not at all
    otherwise, and the side channel has at most one line more, which
    starts with [failed to sync <sinkName>: ]. *)
Theorem Sync_effects (sinkName : string) (st : World) :
  (Sync sinkName st = None ↔ mu (writer st) = true)
  ∧ ∀ st', Sync sinkName st = Some st' →
      mu (writer st') = false
      ∧ sink_type (w (writer st')) = sink_type (w (writer st))
      ∧ sink_data (w (writer st')) = sink_data (w (writer st))
      ∧ sink_sync_calls (w (writer st'))
        = (sink_sync_calls (w (writer st))
           + if is_syncer (w (writer st)) then 1 else 0)%nat
      ∧ (stderr st' = stderr st
         ∨ ∃ text, stderr st' = stderr st
                                ++ ["failed to sync " +:+ sinkName +:+ ": " +:+ text]).
Proof.
  split.
  - unfold Sync. by destruct (mu (writer st)).
  - intros st'. unfold Sync. destruct (mu (writer st)); [done |].
    intros [= <-]. split; [done |].
    cbn [writer w set_mu stderr].
    rewrite Sync_locked_data, Sync_locked_stderr. cbn [writer w set_mu stderr].
    destruct st as [[m [ty res calls data]] lines].
    unfold Sync_locked, sink_Sync, is_syncer, is_os_File;
      cbn -[errorsIsAny].
    destruct ty; cbn -[errorsIsAny].
    + destruct (errorsIsAny res _); cbn;
        repeat split; try done; try (f_equal; lia); eauto.
    + repeat split; try done; try (f_equal; lia); eauto.
    + repeat split; try done; try (f_equal; lia); eauto.
Qed.

Lemma sink_data_foldl_put (p : list Byte.byte) :
  ∀ s, sink_data (foldl (λ s b, sink_put b s) s p) = sink_data s ++ p.
Proof.
  induction p as [| b p IH]; intros s; cbn [foldl].
  - by rewrite app_nil_r.
  - rewrite IH. cbn [sink_put sink_data]. by rewrite <- app_assoc.
Qed.

Lemma Write_returns (p : list Byte.byte) (st : World) :
  mu (writer st) = false →
  ∃ st', Write p st = Some ((Z.of_nat (length p), None), st')
         ∧ mu (writer st') = false
         ∧ stderr st' = stderr st
         ∧ sink_data (w (writer st')) = sink_data (w (writer st)) ++ p.
Proof.
  intros Hmu. unfold Write, Write_locked, sink_Write. rewrite Hmu.
  eexists. split; [reflexivity |]. split; [done |]. split; [done |].
  cbn [writer w set_mu set_sink]. apply sink_data_foldl_put.
Qed.

(** X5.  One goroutine can make any calls to [Write] and [Sync] one after
    the other on a Writer whose mutex is free: no call blocks, each leaves
    the mutex free for the next, and at the end the sink holds what it
    held, followed by the payloads of the [Write] calls in the order of
    the calls. *)
Theorem calls_in_order_never_block (cs : list call) (st : World) :
  mu (writer st) = false →
  ∃ st', calls_in_order cs st = Some st'
         ∧ mu (writer st') = false
         ∧ sink_data (w (writer st'))
           = sink_data (w (writer st)) ++ concat (write_payloads cs).
Proof.
  revert st. induction cs as [| c cs IH]; intros st Hmu.
  - exists st. cbn. by rewrite app_nil_r.
  - destruct c as [p | sinkName]; cbn [calls_in_order].
    + destruct (Write_returns p st Hmu) as (st1 & -> & Hmu1 & _ & Hdata1).
      destruct (IH st1 Hmu1) as (st' & Hrun & Hmu' & Hdata').
      exists st'. split; [done |]. split; [done |].
      rewrite Hdata', Hdata1. cbn. by rewrite <- app_assoc.
    + unfold Sync at 1. rewrite Hmu.
      destruct (IH (set_mu false (Sync_locked sinkName (set_mu true st))) eq_refl)
        as (st' & Hrun & Hmu' & Hdata').
      exists st'. split; [done |]. split; [done |].
      rewrite Hdata'. cbn [writer w set_mu]. by rewrite Sync_locked_data.
Qed.

Lemma calls_in_order_never_block_witness :
  ∃ st', calls_in_order [CallWrite ex_ab; CallSync "buffer"; CallWrite ex_cd] ex_world
         = Some st'
         ∧ mu (writer st') = false
         ∧ sink_data (w (writer st'))
           = [] ++ concat (write_payloads
                             [CallWrite ex_ab; CallSync "buffer"; CallWrite ex_cd]).
Proof.
  apply (calls_in_order_never_block
           [CallWrite ex_ab; CallSync "buffer"; CallWrite ex_cd] ex_world).
  reflexivity.
Defined.

End SyncwriterFacts.

(* ===================================================================== *)
(** * More on several threads on one Writer *)
(* ===================================================================== *)

Module ConcurrencyFacts.

Import Syncwriter SyncwriterProps ConcurrencyProps.

Lemma busy_can_step (t : thread) (st : World) :
  busy t = true → is_Some (thread_step t st).
Proof.
  unfold busy, thread_step. destruct (act t) as [| p n | sinkName [|]]; [done | | |].
  - intros _. by destruct (p !! n).
  - by eauto.
  - by eauto.
Qed.

Lemma todo_empty_dec (t : thread) : {todo t = [] } + {todo t ≠ [] }.
Proof. destruct (todo t); [by left | by right]. Qed.

Lemma serialized_progress d0 all sys ps cur :
  serialized d0 all sys ps cur → finished sys ∨ ∃ i, can_step i sys.
Proof.
  intros (_ & _ & Hlock).
  destruct (mu (writer (world sys))) eqn:Hmu.
  - right. destruct Hlock as (i & t & Hi & Hbusy & _).
    exists i, t. split; [done |]. by apply busy_can_step.
  - destruct Hlock as [_ Hidle].
    destruct (Forall_Exists_dec (λ t, todo t = []) (λ t, todo t ≠ [])
                todo_empty_dec (threads sys)) as [Hdone | Hsome].
    + left. unfold finished. rewrite Forall_lookup in Hdone |- *.
      intros i t Hi. split; [| by eauto].
      specialize (Hidle i t Hi). unfold busy in Hidle. by destruct (act t).
    + right. apply Exists_exists in Hsome as (t & Ht & Htodo).
      apply list_elem_of_lookup in Ht as [i Hi].
      exists i, t. split; [done |].
      specialize (Hidle i t Hi). unfold busy in Hidle. unfold thread_step.
      destruct (act t); [| done | done].
      destruct (todo t); [done |]. rewrite Hmu. by eauto.
Qed.

(** X6.  The threads never deadlock: from a Writer with a free mutex,
    after whatever steps the threads have taken in whatever order, either
    every thread has made all its calls or some thread can take a step
    (the one that holds the mutex, or one that can take it). *)
Theorem threads_never_deadlock
    (s : Sink) (programs : list (list call)) (schedule : list nat) :
  let sys := run schedule (start s programs) in
  finished sys ∨ ∃ i, can_step i sys.
Proof.
  intros sys.
  destruct (run_serialized _ _ schedule _ _ _ (start_serialized s programs))
    as (ps & cur & Hinv).
  exact (serialized_progress _ _ _ _ _ Hinv).
Qed.

(** ** The calls come to an end *)

Lemma thread_step_work t st t' st' :
  thread_step t st = Some (t', st') → thread_work t = S (thread_work t').
Proof.
  unfold thread_step, thread_work.
  destruct t as [[| p n | sinkName [|]] td]; cbn [act todo].
  - destruct td as [| c cs]; [done |]. destruct (mu (writer st)); [done |].
    destruct c; intros [= <- _]; cbn; lia.
  - destruct (p !! n) as [b |] eqn:Hb; intros [= <- _]; cbn [act todo].
    + apply lookup_lt_Some in Hb. lia.
    + apply lookup_ge_None in Hb. lia.
  - intros [= <- _]. cbn [act todo]. lia.
  - intros [= <- _]. cbn [act todo]. lia.
Qed.

Lemma system_step_work i sys :
  can_step i sys → total_work sys = S (total_work (system_step i sys)).
Proof.
  intros (t & Hi & [[t' st'] Hstep]).
  unfold system_step, total_work. rewrite Hi, Hstep. cbn [threads].
  rewrite <- (take_drop_middle (threads sys) i t Hi) at 1.
  rewrite insert_take_drop by (by eapply lookup_lt_Some).
  rewrite !fmap_app, !fmap_cons, !sum_list_with_app. cbn [sum_list_with id].
  rewrite (thread_step_work _ _ _ _ Hstep). lia.
Qed.

Lemma no_work_finished sys : total_work sys = 0 → finished sys.
Proof.
  unfold total_work, finished. induction (threads sys) as [| t ts IH]; [done |].
  rewrite fmap_cons. cbn [sum_list_with id]. intros Hsum.
  apply Forall_cons. split; [| apply IH; lia].
  assert (thread_work t = 0) as Hw by lia. unfold thread_work in Hw.
  destruct t as [[| p n | sinkName [|]] [| c cs]]; cbn in *; try done; try lia.
  destruct c; cbn in Hw; lia.
Qed.

Lemma serialized_completes d0 all (n : nat) :
  ∀ sys ps cur, serialized d0 all sys ps cur → total_work sys = n →
    ∃ more, length more = n ∧ finished (run more sys).
Proof.
  induction n as [| n IH]; intros sys ps cur Hinv Hwork.
  - exists []. split; [done |]. by apply no_work_finished.
  - destruct (serialized_progress _ _ _ _ _ Hinv) as [Hfin | [i Hi]].
    + exfalso. unfold finished, total_work in *.
      induction (threads sys) as [| t ts IHts]; [done |].
      apply Forall_cons in Hfin as [[Hact Htodo] Hrest].
      rewrite fmap_cons in Hwork. cbn [sum_list_with id] in Hwork.
      unfold thread_work at 1 in Hwork. rewrite Hact, Htodo in Hwork.
      cbn in Hwork. by apply IHts.
    + destruct (system_step_serialized _ _ _ i _ _ Hinv) as (ps1 & cur1 & Hinv1).
      pose proof (system_step_work _ _ Hi) as Hless.
      destruct (IH _ _ _ Hinv1 ltac:(lia)) as (more & Hlen & Hfin).
      exists (i :: more). split; [cbn; lia |]. by rewrite run_cons.
Qed.

(** X12.  The calls always come to an end: after whatever steps the
    threads have taken, there are further steps, as many as the calls have
    steps left ([Lock], one per byte, [Unlock]; [Lock], body, [Unlock]),
    after which every thread has made all its calls. *)
Theorem calls_can_complete
    (s : Sink) (programs : list (list call)) (schedule : list nat) :
  ∃ more,
    length more = total_work (run schedule (start s programs))
    ∧ finished (run (schedule ++ more) (start s programs)).
Proof.
  destruct (run_serialized _ _ schedule _ _ _ (start_serialized s programs))
    as (ps & cur & Hinv).
  destruct (serialized_completes _ _ _ _ _ _ Hinv eq_refl) as (more & Hlen & Hfin).
  exists more. split; [done |]. unfold run in *. by rewrite foldl_app.
Qed.

End ConcurrencyFacts.

(* ===================================================================== *)
(** * More on package humanfmt *)
(* ===================================================================== *)

Module HumanfmtFacts.

Import color slog Humanfmt HumanfmtProps.

(** X7.  [Entry] returns a string exactly when neither of its two panics
    is met: colour is off or the level is one of the six, and, under
    [slogval.JSONTest], a map that the encoder returns has at least three
    entries.  Outside the JSON test mode and without colour it always
    returns. *)
Theorem Entry_returns_iff
    (d : Deps) (ent : slog.Entry) (enableColor : bool)
    (h : gmap nat (list Field)) :
  (∃ s, (Entry d ent enableColor h).1 = Returns s) ↔
  (enableColor = false ∨ known_level (Level_ ent))
  ∧ (∀ m, JSONTest d = true →
          Encode d (elems (fields_for_encoding d ent h).2
                          (fields_for_encoding d ent h).1) = slogval.Map m →
          (3 ≤ length m)%nat).
Proof.
  rewrite Entry_layout. unfold level_tag.
  destruct (fields_for_encoding d ent h) as [fs h'] eqn:Hfs. cbn [fst snd].
  assert ((∃ block, field_block d (elems h' fs) = Returns block) ↔
          (∀ m, JSONTest d = true → Encode d (elems h' fs) = slogval.Map m →
                (3 ≤ length m)%nat)) as Hblock.
  { unfold field_block. destruct (Encode d (elems h' fs)) as [text | items | m].
    - split; [by intros _ m _ [=] | by eauto].
    - split; [by intros _ m _ [=] | by eauto].
    - destruct (JSONTest d).
      + destruct (m !! 2%nat) as [errVal |] eqn:Hm.
        * split; [| by eauto]. intros _ m' _ [= <-].
          apply lookup_lt_Some in Hm. unfold slogval.Field in *. lia.
        * split; [by intros [? [=]] |]. intros Hlen. exfalso.
          apply lookup_ge_None in Hm. specialize (Hlen m eq_refl eq_refl).
          unfold slogval.Field in *. lia.
      + split; [by intros _ m' [=] | by eauto]. }
  destruct enableColor.
  - destruct (decide (known_level (Level_ ent))) as [Hk | Hk].
    + destruct (levelColor_known _ Hk) as [c ->]. cbn [fst].
      rewrite <- Hblock. split.
      * intros [s Hs]. split; [by right |].
        destruct (field_block d (elems h' fs)); [by eauto | done].
      * intros [_ [block ->]]. by eauto.
    + rewrite (levelColor_unknown _ Hk). cbn [fst]. split; [by intros [? [=]] |].
      intros [[[=] | ?] _]. done.
  - cbn [fst]. rewrite <- Hblock. split.
    + intros [s Hs]. split; [by left |].
      destruct (field_block d (elems h' fs)); [by eauto | done].
    + intros [_ [block ->]]. by eauto.
Qed.

(** X13.  [levelColor] returns a colour exactly for the six levels, and
    panics for any other; the colour it returns is blue, yellow, red or
    bright red, never the green [Entry] gives the location nor the magenta
    it gives the component. *)
Theorem levelColor_palette (level : Level) :
  ((∃ c, levelColor level = Returns c) ↔ known_level level)
  ∧ (∀ c, levelColor level = Returns c →
          c ∈ [FgBlue; FgYellow; FgRed; FgHiRed] ∧ c ≠ FgGreen ∧ c ≠ FgMagenta).
Proof.
  split.
  - split; [| apply levelColor_known].
    intros [c Hc]. destruct (decide (known_level level)) as [| Hk]; [done |].
    by rewrite (levelColor_unknown _ Hk) in Hc.
  - intros c. unfold levelColor.
    repeat (destruct (decide _);
            [intros [= <-]; split; [rewrite !elem_of_cons; auto | split; discriminate] |]).
    done.
Qed.

(** X8.  What [Entry] returns is never empty: it begins with the opening
    bracket of the level tag. *)
Theorem Entry_output_begins_with_bracket
    (d : Deps) (ent : slog.Entry) (enableColor : bool)
    (h : gmap nat (list Field)) (s : string) :
  (Entry d ent enableColor h).1 = Returns s →
  ∃ rest, s = String "[" rest.
Proof.
  rewrite Entry_layout. unfold level_tag.
  destruct enableColor; [destruct (levelColor (Level_ ent)); [| done] |];
    destruct (fields_for_encoding d ent h) as [fs h']; cbn [fst];
    (destruct (field_block d _); [| done]); intros [= <-]; by eexists.
Qed.

Lemma Entry_output_begins_with_bracket_witness :
  ∃ rest, "[INFO] {server.go:42} (api) Jan 02 15:04:05.123: boom
retries: 3" = String "[" rest.
Proof.
  apply (Entry_output_begins_with_bracket (ex_Deps false) ex_entry_api false ex_heap).
  vm_compute. reflexivity.
Defined.

Lemma fields_for_encoding_elems (d : Deps) (ent : slog.Entry)
    (h : gmap nat (list Field)) :
  valid_slice h (Fields ent) →
  elems (fields_for_encoding d ent h).2 (fields_for_encoding d ent h).1
  = if decide (SpanContext ent = trace.zero) then elems h (Fields ent)
    else F "trace" (ATraceID (trace.TraceID (SpanContext ent)))
           :: F "span" (ASpanID (trace.SpanID (SpanContext ent)))
           :: elems h (Fields ent).
Proof.
  intros Hvalid. destruct (decide (SpanContext ent = trace.zero)) as [Hz | Hnz].
  - by rewrite fields_for_encoding_zero.
  - by apply fields_for_encoding_span.
Qed.

(** X9.  The outcome of [Entry] depends on the fields the caller's slice
    reads, not on how they are stored: the same fields in another array,
    at another offset or with another capacity, and other choices of
    capacity by [slog.Map] and by the runtime when [append] grows a slice,
    give the same string or the same panic. *)
Theorem Entry_outcome_ignores_storage
    (d : Deps) (ent : slog.Entry) (enableColor : bool)
    (h1 h2 : gmap nat (list Field)) (fields2 : slice)
    (spare : nat) (grow : nat → nat → nat) :
  valid_slice h1 (Fields ent) →
  valid_slice h2 fields2 →
  elems h1 (Fields ent) = elems h2 fields2 →
  (Entry d ent enableColor h1).1
  = (Entry (with_capacities spare grow d) (with_Fields fields2 ent) enableColor h2).1.
Proof.
  intros Hv1 Hv2 Hsame. rewrite !Entry_layout.
  change (level_tag (with_capacities spare grow d) (with_Fields fields2 ent) enableColor)
    with (level_tag d ent enableColor).
  destruct (level_tag d ent enableColor) as [tag | f]; [| done].
  pose proof (fields_for_encoding_elems d ent h1 Hv1) as H1.
  pose proof (fields_for_encoding_elems (with_capacities spare grow d)
                (with_Fields fields2 ent) h2 Hv2) as H2.
  cbn [with_Fields SpanContext Fields] in H2. rewrite <- Hsame, <- H1 in H2.
  destruct (fields_for_encoding d ent h1) as [fs1 h1'].
  destruct (fields_for_encoding _ (with_Fields fields2 ent) h2) as [fs2 h2'].
  cbn [fst snd] in *.
  change (field_block (with_capacities spare grow d) (elems h2' fs2))
    with (field_block d (elems h2' fs2)).
  rewrite H2. reflexivity.
Qed.

Lemma Entry_outcome_ignores_storage_witness :
  (Entry (ex_Deps false) ex_entry_traced false ex_heap).1
  = (Entry (with_capacities 5 (λ old needed, needed + 3)%nat (ex_Deps false))
           (with_Fields (mkSlice 8 1 1 1) ex_entry_traced) false ex_heap_roomy).1.
Proof.
  apply (Entry_outcome_ignores_storage (ex_Deps false) ex_entry_traced false
           ex_heap ex_heap_roomy (mkSlice 8 1 1 1) 5 (λ old needed, needed + 3)%nat).
  - split; [simpl; lia |]. right. exists [F "retries" (AInt 3)].
    split; [reflexivity | simpl; lia].
  - split; [simpl; lia |]. right.
    exists [F "other" (AString "array"); F "retries" (AInt 3)].
    split; [reflexivity | simpl; lia].
  - reflexivity.
Defined.

Lemma size_add_one (l : nat) (X : gset nat) : size ({[l]} ∪ X) ≤ S (size X).
Proof.
  rewrite size_union_alt, size_singleton.
  apply le_n_S, subseteq_size. by apply subseteq_difference_l.
Qed.

Lemma alloc_dom_size xs spare (h : gmap nat (list Field)) :
  size (dom (alloc xs spare h).2) ≤ S (size (dom h)).
Proof. unfold alloc; cbn [snd]. rewrite dom_insert_L. apply size_add_one. Qed.

Lemma append_dom_size growcap s xs (h : gmap nat (list Field)) :
  size (dom (append growcap s xs h).2) ≤ S (size (dom h)).
Proof.
  unfold append. destruct (_ <=? _)%nat; cbn [snd].
  - rewrite dom_alter_L. lia.
  - apply alloc_dom_size.
Qed.

(** X10.  What [Entry] does to the heap of fields: every array that was
    there before the call is there after it with the same cells, whatever
    the entry; with the empty span context the heap is left exactly as it
    was; otherwise at most two arrays are new (the one [slog.Map] makes and
    the one [append] may make). *)
Theorem Entry_heap_effect
    (d : Deps) (ent : slog.Entry) (enableColor : bool)
    (h : gmap nat (list Field)) :
  let h' := (Entry d ent enableColor h).2 in
  (∀ l, l ∈ dom h → h' !! l = h !! l)
  ∧ (SpanContext ent = trace.zero → h' = h)
  ∧ size (dom h') ≤ size (dom h) + 2.
Proof.
  intros h'.
  assert (h' = h ∨ h' = (fields_for_encoding d ent h).2) as Hh'.
  { unfold h'. rewrite Entry_layout.
    destruct (level_tag d ent enableColor); [| by left].
    destruct (fields_for_encoding d ent h). by right. }
  split; [| split].
  - intros l Hl. destruct Hh' as [-> | ->]; [done |].
    by apply fields_for_encoding_frame.
  - intros Hz. destruct Hh' as [-> | ->]; [done |].
    by rewrite fields_for_encoding_zero.
  - destruct Hh' as [-> | ->]; [lia |].
    unfold fields_for_encoding, slog_Map. destruct (decide _); [| cbn [snd]; lia].
    pose proof (alloc_dom_size
                  [F "trace" (ATraceID (trace.TraceID (SpanContext ent)));
                   F "span" (ASpanID (trace.SpanID (SpanContext ent)))]
                  (Map_spare d) h) as Hone.
    destruct (alloc _ _ h) as [m0 h0]. cbn [snd] in Hone.
    pose proof (append_dom_size (growcap d) m0 (elems h0 (Fields ent)) h0). lia.
Qed.

(** ** The layout and [time.StampMilli] *)

Section stamp.
Local Open Scope Z_scope.

Lemma space_padded_day_spec (d : Z) :
  1 ≤ d ≤ 31 →
  time.space_padded_day d
  = if d <? 10 then String " " (String (time.digit d) "") else two_digits d.
Proof.
  intros Hd.
  assert (∃ n : nat, d = Z.of_nat n ∧ (n ≤ 31)%nat) as (n & -> & Hn).
  { exists (Z.to_nat d). lia. }
  do 32 (destruct n as [| n]; [first [reflexivity | lia] |]). lia.
Qed.

Lemma month_abbrev_length (m : Z) :
  1 ≤ m ≤ 12 → String.length (time.month_abbrev m) = 3%nat.
Proof.
  intros Hm.
  assert (∃ n : nat, m = Z.of_nat n ∧ (n ≤ 12)%nat) as (n & -> & Hn).
  { exists (Z.to_nat m). lia. }
  do 13 (destruct n as [| n]; [first [reflexivity | lia] |]). lia.
Qed.

Lemma Format_StampMilli (t : time.Time) :
  valid_time t →
  time.Format t time.StampMilli =
    (time.month_abbrev (time.Month t) +:+ " ")
      +:+ (if time.Day t <? 10 then String " " (String (time.digit (time.Day t)) "")
           else two_digits (time.Day t))
      +:+ " " +:+ two_digits (time.Hour t) +:+ ":" +:+ two_digits (time.Minute t) +:+ ":"
      +:+ two_digits (time.Second t) +:+ "." +:+ three_digits (time.Nanosecond t / 1000000).
Proof.
  intros (Hmo & Hd & Hh & Hmi & Hs & Hns).
  unfold time.Format, time.StampMilli.
  cbn [String.list_ascii_of_string time.format_layout time.starts_with_digit].
  rewrite !appendInt_two, millis_three, space_padded_day_spec by lia.
  rewrite ?append_assoc. reflexivity.
Qed.

(** X11.  [timestampMilli] is "the same as [time.StampMilli] but the days
    in the month padded by zeros": for a calendar time the two layouts
    give the same text when the day is 10 or more, and when the day is
    below 10 the texts are equal but for their fifth character, [0] with
    [timestampMilli] and a space with [time.StampMilli]. *)
Theorem timestampMilli_is_StampMilli_but_zero_padded (t : time.Time) :
  valid_time t →
  (10 ≤ time.Day t →
     time.Format t timestampMilli = time.Format t time.StampMilli)
  ∧ (time.Day t < 10 →
     ∃ before after,
       String.length before = 4%nat
       ∧ time.Format t timestampMilli = before +:+ String "0" after
       ∧ time.Format t time.StampMilli = before +:+ String " " after).
Proof.
  intros Hvalid.
  rewrite (Format_timestampMilli t Hvalid), (Format_StampMilli t Hvalid).
  destruct Hvalid as (Hmo & Hd & _). split.
  - intros Hday. rewrite (proj2 (Z.ltb_ge (time.Day t) 10)) by lia.
    by rewrite ?append_assoc.
  - intros Hday. rewrite (proj2 (Z.ltb_lt (time.Day t) 10)) by lia.
    eexists (time.month_abbrev (time.Month t) +:+ " "), _. split; [| split].
    + pose proof (month_abbrev_length _ Hmo) as Hlen.
      destruct (time.month_abbrev (time.Month t)) as [| a [| b [| c [| ? ?]]]];
        try discriminate Hlen. reflexivity.
    + unfold two_digits. rewrite Z.div_small, Z.mod_small by lia.
      rewrite ?append_assoc. reflexivity.
    + reflexivity.
Qed.

Lemma timestampMilli_is_StampMilli_but_zero_padded_witness :
  (10 ≤ time.Day ex_time →
     time.Format ex_time timestampMilli = time.Format ex_time time.StampMilli)
  ∧ (time.Day ex_time < 10 →
     ∃ before after,
       String.length before = 4%nat
       ∧ time.Format ex_time timestampMilli = before +:+ String "0" after
       ∧ time.Format ex_time time.StampMilli = before +:+ String " " after).
Proof.
  apply (timestampMilli_is_StampMilli_but_zero_padded ex_time).
  unfold valid_time. simpl. lia.
Defined.

End stamp.

End HumanfmtFacts.
